(** * The FCM push adapter (server/push/fcm/push_fcm.go)

    A shallow embedding of the notification sender [sendFcm], the topic
    subscription manager [processSubscription] with its partial-failure
    inspection [handleSubErrors], and the handler life cycle
    ([IsReady], [Stop]).

    Everything the adapter does is a side effect on an external party: a
    call to the FCM client, a delete in the device store, a log line.  A
    task is therefore modelled as a function on the trace of the effects
    issued so far; the external parties are oracles that answer the k-th
    request of a task.  A Go run-time panic (index out of range) ends the
    task with [Panicked]. *)

From Stdlib Require Import ZArith String List Bool Lia.
From stdpp Require Import base list.
Import ListNotations.

Local Open Scope string_scope.
Local Open Scope list_scope.
Local Open Scope Z_scope.

(** ** Constants *)

(** Size of the input channel buffer. *)
Definition bufferSize : Z := 1024.

(** The number of push messages sent in one batch. FCM constant. *)
Definition pushBatchSize : Z := 100.

(** The number of sub/unsub requests sent in one batch. FCM constant. *)
Definition subBatchSize : Z := 1000.

(** ** Data *)

(** [types.Uid] is an unsigned 64-bit database key. *)
Definition Uid := Z.

(** Go's [len], an [int]. *)
Definition len {A} (l : list A) : Z := Z.of_nat (length l).

(** Go's [s != ""]. *)
Definition nonempty (s : string) : bool := negb (String.eqb s "").

(** [common.Config]: per-platform options, never inspected here, only
    handed over to [PrepareNotifications]. *)
Record CommonConfig := { commonRaw : string }.

Record configType := {
  Enabled : bool;
  DryRun : bool;
  Credentials : option string;
  CredentialsFile : string;
  TimeToLive : Z;
  ApnsBundleID : string;
  Android : option CommonConfig;
  Apns : option CommonConfig;
  Webpush : option CommonConfig
}.

(** [fbmsg.Message]: the adapter reads the [Token] only; [Payload] stands
    for the rest of the provider-ready notification. *)
Record Message := { Token : string; Payload : string }.

(** [push.ChannelReq]. *)
Record ChannelReq := {
  ReqUid : Uid;
  DeviceID : string;
  Channel : string;
  Unsub : bool
}.

(** [fbmsg.ErrorInfo] and [fbmsg.TopicManagementResponse]. *)
Record ErrorInfo := { Index : Z; Reason : string }.

Record TopicManagementResponse := {
  SuccessCount : Z;
  FailureCount : Z;
  Errors : list ErrorInfo
}.

(** The error values of the FCM client with the predicates of the SDK the
    adapter consults, and [err.Error()]. *)
Class FcmError (E : Type) := {
  IsQuotaExceeded : E -> bool;
  IsUnavailable : E -> bool;
  IsInternal : E -> bool;
  IsSenderIDMismatch : E -> bool;
  IsInvalidArgument : E -> bool;
  IsThirdPartyAuthError : E -> bool;
  IsUnregistered : E -> bool;
  ErrorText : E -> string
}.

(** ** Effects *)

(** One request to the FCM client. *)
Inductive ProviderCall :=
| CSend (m : Message)
| CSendDryRun (m : Message)
| CSubscribeToTopic (tokens : list string) (topic : string)
| CUnsubscribeFromTopic (tokens : list string) (topic : string).

Inductive Level := Warn | Err.

(** An argument of a [Println]. *)
Inductive LogArg :=
| AStr (s : string)
| AInt (z : Z)
| ABool (b : bool)
| AUid (u : Uid).

Inductive Event :=
| Call (c : ProviderCall)
| DeviceDelete (uid : Uid) (token : string)
| Log (lvl : Level) (args : list LogArg).

Definition Trace := list Event.

Definition provider_call (e : Event) : option ProviderCall :=
  match e with Call c => Some c | _ => None end.

Definition device_delete (e : Event) : option (Uid * string) :=
  match e with DeviceDelete u t => Some (u, t) | _ => None end.

Definition log_line (e : Event) : option (Level * list LogArg) :=
  match e with Log l a => Some (l, a) | _ => None end.

(** The provider calls, the device-store deletes and the log lines of a
    trace, each in the order issued. *)
Definition calls (tr : Trace) : list ProviderCall := omap provider_call tr.
Definition deletes (tr : Trace) : list (Uid * string) := omap device_delete tr.
Definition logged (tr : Trace) : list (Level * list LogArg) := omap log_line tr.

(** How a task ends: it returns, or the Go run time panics. *)
Inductive Outcome (A : Type) :=
| Returned (a : A)
| Panicked.
Arguments Returned {A} a.
Arguments Panicked {A}.

(** A task maps the trace so far to its outcome and the extended trace. *)
Definition Task (A : Type) : Type := Trace -> Outcome A * Trace.

Definition ret {A} (a : A) : Task A := fun tr => (Returned a, tr).

Definition bind {A B} (t : Task A) (k : A -> Task B) : Task B :=
  fun tr =>
    match t tr with
    | (Returned a, tr') => k a tr'
    | (Panicked, tr') => (Panicked, tr')
    end.

Definition panic {A} : Task A := fun tr => (Panicked, tr).

Definition emit (e : Event) : Task unit := fun tr => (Returned tt, tr ++ [e]).

Declare Scope task_scope.
Delimit Scope task_scope with task.
Notation "x <- t ;; k" := (bind t (fun x => k))
  (at level 100, t at next level, k at level 200, right associativity)
  : task_scope.
Notation "t ;;; k" := (bind t (fun _ => k))
  (at level 100, k at level 200, right associativity) : task_scope.
Local Open Scope task_scope.

(** [logs.Warn.Println(...)] and [logs.Err.Println(...)]. *)
Definition logWarn (args : list LogArg) : Task unit := emit (Log Warn args).
Definition logErr (args : list LogArg) : Task unit := emit (Log Err args).

(** [l[i]] for a Go [int] index: out of range panics. *)
Definition index {A} (l : list A) (i : Z) : Task A :=
  if (0 <=? i) && (i <? len l) then
    match l !! Z.to_nat i with
    | Some a => ret a
    | None => panic
    end
  else panic.

(** The trace a task leaves when started on its own, and how it ends. *)
Definition run {A} (t : Task A) : Trace := snd (t []).
Definition outcome {A} (t : Task A) : Outcome A := fst (t []).

(** ** The external parties *)

(** What a topic call gives back: Go's [(resp, err)] with exactly one of the
    two set. *)
Inductive TopicReply (E : Type) :=
| TopicOk (resp : TopicManagementResponse)
| TopicFailed (err : E).
Arguments TopicOk {E} resp.
Arguments TopicFailed {E} err.

(** [handler.client], the FCM client.  Each method takes the number of
    calls the task has made to the provider before this one, so that the
    provider may answer two equal requests differently.  [Send] and
    [SendDryRun] give [None] for a nil error (the message id is dropped by
    the adapter). *)
Record Client (E : Type) := {
  Send : nat -> Message -> option E;
  SendDryRun : nat -> Message -> option E;
  SubscribeToTopic : nat -> list string -> string -> TopicReply E;
  UnsubscribeFromTopic : nat -> list string -> string -> TopicReply E
}.
Arguments Send {E} _ _ _.
Arguments SendDryRun {E} _ _ _.
Arguments SubscribeToTopic {E} _ _ _ _.
Arguments UnsubscribeFromTopic {E} _ _ _ _.

(** [store.Devices]: [Delete] answers the k-th delete of a task with [None]
    (nil) or with the text of its error. *)
Record DeviceStore := {
  Delete : nat -> Uid -> string -> option string
}.

(** The four outcomes of a failed send (the branches of [sendFcm]). *)
Inductive ErrorClass := Transient | ConfigError | InvalidToken | Unknown.

(** A response is aligned with a device list when each of its failure
    indices points into the list. *)
Definition aligned (devices : list string) (resp : TopicManagementResponse) : Prop :=
  Forall (fun errinfo => 0 <= Index errinfo < len devices) (Errors resp).

(** Everything but a line of the error log. *)
Definition quiet (e : Event) : Prop :=
  match e with
  | Log Err _ => False
  | _ => True
  end.

(** The dry-run twin of an event: a real send becomes a validation send. *)
Definition viaDryRun (e : Event) : Event :=
  match e with
  | Call (CSend m) => Call (CSendDryRun m)
  | _ => e
  end.

(** ** The handler and its channels *)

(** A buffered Go channel: its capacity and the values waiting in it. *)
Record Chan (A : Type) := { capacity : nat; queue : list A }.
Arguments capacity {A} _.
Arguments queue {A} _.

(** [make(chan A, n)]. *)
Definition make {A} (n : Z) : Chan A := {| capacity := Z.to_nat n; queue := [] |}.

(** [c <- v] on its own: the value is queued when the buffer has room.  A
    send on a nil channel, or on a full buffer that nobody drains, does not
    complete ([None]). *)
Definition chanSend {A} (c : option (Chan A)) (v : A) : option (Chan A) :=
  match c with
  | None => None
  | Some ch =>
    if (length (queue ch) <? capacity ch)%nat then
      Some {| capacity := capacity ch; queue := queue ch ++ [v] |}
    else None
  end.

(** [context.Context] and [*fbmsg.Client] as the handler holds them. *)
Inductive Context := Background.
Record ClientRef := { clientApp : string }.

(** [Handler]; nil channels, a nil interface and a nil pointer are [None]. *)
Record Handler (Receipt : Type) := {
  input : option (Chan Receipt);
  channel : option (Chan ChannelReq);
  stop : option (Chan bool);
  ctx : option Context;
  client : option ClientRef
}.
Arguments input {Receipt} _.
Arguments channel {Receipt} _.
Arguments stop {Receipt} _.
Arguments ctx {Receipt} _.
Arguments client {Receipt} _.

(** [var handler Handler]: the zero value. *)
Definition zeroHandler {Receipt} : Handler Receipt :=
  {| input := None; channel := None; stop := None; ctx := None; client := None |}.

(** The handler as a successful [Init] leaves it (lines 85, 96, 101-103). *)
Definition initialised {Receipt} (c : ClientRef) : Handler Receipt :=
  {| input := Some (make bufferSize);
     channel := Some (make bufferSize);
     stop := Some (make 1);
     ctx := Some Background;
     client := Some c |}.

(** [IsReady]: [handler.input != nil]. *)
Definition IsReady {Receipt} (h : Handler Receipt) : bool :=
  match input h with Some _ => true | None => false end.

(** [Push] and [Channel] hand out the two ingress queues. *)
Definition Push {Receipt} (h : Handler Receipt) : option (Chan Receipt) := input h.
Definition ChannelQueue {Receipt} (h : Handler Receipt) : option (Chan ChannelReq) :=
  channel h.

(** [Stop]: [handler.stop <- true]. *)
Definition Stop {Receipt} (h : Handler Receipt) : option (Handler Receipt) :=
  match chanSend (stop h) true with
  | Some c =>
    Some {| input := input h; channel := channel h; stop := Some c;
            ctx := ctx h; client := client h |}
  | None => None
  end.

(** ** Start-up *)

(** What [Init] asks of the world around it, each answer with Go's
    [(value, err)] shape: the JSON decoder for [configType], [os.ReadFile]
    (the slice it returns may be nil), [google.CredentialsFromJSON],
    [fbase.NewApp] and [app.Messaging].  The client [Messaging] hands back
    is stored in the handler whatever the error says. *)
Record Platform (Creds App : Type) := {
  Unmarshal : string -> configType + string;
  ReadFile : string -> option string + string;
  CredentialsFromJSON : string -> Creds + string;
  NewApp : Creds -> App + string;
  Messaging : App -> option ClientRef * option string
}.
Arguments Unmarshal {Creds App} _ _.
Arguments ReadFile {Creds App} _ _.
Arguments CredentialsFromJSON {Creds App} _ _.
Arguments NewApp {Creds App} _ _.
Arguments Messaging {Creds App} _ _.

(** [config.Credentials = data]. *)
Definition setCredentials (config : configType) (data : option string) : configType :=
  {| Enabled := Enabled config; DryRun := DryRun config; Credentials := data;
     CredentialsFile := CredentialsFile config; TimeToLive := TimeToLive config;
     ApnsBundleID := ApnsBundleID config; Android := Android config;
     Apns := Apns config; Webpush := Webpush config |}.

(** What a call of [Init] leaves: the two values it returns, the handler,
    and the control loop when it was started, with the config it holds. *)
Record Started (Receipt : Type) := {
  initOk : bool;
  initErr : option string;
  initHandler : Handler Receipt;
  initLoop : option configType
}.
Arguments initOk {Receipt} _.
Arguments initErr {Receipt} _.
Arguments initHandler {Receipt} _.
Arguments initLoop {Receipt} _.

(** [return false, err] with the handler as it is by then. *)
Definition initFailed {Receipt} (h : Handler Receipt) (err : string)
  : Started Receipt :=
  {| initOk := false; initErr := Some err; initHandler := h; initLoop := None |}.

(** [Init]. *)
Definition Init {Receipt Creds App} (world : Platform Creds App)
    (handler : Handler Receipt) (jsonconf : string) : Started Receipt :=
  match Unmarshal world jsonconf with
  | inr err => initFailed handler (String.append "failed to parse config: " err)
  | inl config =>
    if negb (Enabled config) then
      {| initOk := false; initErr := None; initHandler := handler;
         initLoop := None |}
    else
      match
        (match Credentials config with
         | None =>
           if nonempty (CredentialsFile config) then
             match ReadFile world (CredentialsFile config) with
             | inl data => inl (setCredentials config data)
             | inr err => inr err
             end
           else inl config
         | Some _ => inl config
         end)
      with
      | inr err => initFailed handler err
      | inl config =>
        match Credentials config with
        | None => initFailed handler "missing credentials"
        | Some data =>
          let handler :=
            {| input := input handler; channel := channel handler;
               stop := stop handler; ctx := Some Background;
               client := client handler |} in
          match CredentialsFromJSON world data with
          | inr err => initFailed handler err
          | inl credentials =>
            match NewApp world credentials with
            | inr err => initFailed handler err
            | inl app =>
              let handler :=
                {| input := input handler; channel := channel handler;
                   stop := stop handler; ctx := ctx handler;
                   client := fst (Messaging world app) |} in
              match snd (Messaging world app) with
              | Some err => initFailed handler err
              | None =>
                {| initOk := true; initErr := None;
                   initHandler :=
                     {| input := Some (make bufferSize);
                        channel := Some (make bufferSize);
                        stop := Some (make 1);
                        ctx := ctx handler; client := client handler |};
                   initLoop := Some config |}
              end
            end
          end
        end
      end
  end.

(** ** The control loop *)

(** [v := <-c] on its own: the oldest value leaves the buffer.  A receive
    on a nil channel or on an empty buffer is not ready ([None]). *)
Definition chanRecv {A} (c : option (Chan A)) : option (A * Chan A) :=
  match c with
  | None => None
  | Some ch =>
    match queue ch with
    | [] => None
    | v :: rest => Some (v, {| capacity := capacity ch; queue := rest |})
    end
  end.

(** The values waiting in a channel; none in a nil channel. *)
Definition pending {A} (c : option (Chan A)) : list A :=
  match c with
  | Some ch => queue ch
  | None => []
  end.

(** A task the loop starts with [go]. *)
Inductive Job (Receipt : Type) :=
| SendJob (rcpt : Receipt) (config : configType)
| SubJob (req : ChannelReq).
Arguments SendJob {Receipt} rcpt config.
Arguments SubJob {Receipt} req.

Definition sendJob {Receipt} (j : Job Receipt) : option Receipt :=
  match j with SendJob rcpt _ => Some rcpt | SubJob _ => None end.

Definition subJob {Receipt} (j : Job Receipt) : option ChannelReq :=
  match j with SubJob req => Some req | SendJob _ _ => None end.

(** The loop with the handler it reads, the tasks it has started so far, in
    order, and whether it has returned. *)
Record Dispatcher (Receipt : Type) := {
  handlerOf : Handler Receipt;
  spawned : list (Job Receipt);
  exited : bool
}.
Arguments handlerOf {Receipt} _.
Arguments spawned {Receipt} _.
Arguments exited {Receipt} _.

(** The three cases of the [select]. *)
Inductive Case := FromInput | FromChannel | FromStop.

(** One round of the loop when [select] picks the given case; [None] when
    that case is not ready or the loop has returned. *)
Definition loopStep {Receipt} (config : configType) (pick : Case)
    (d : Dispatcher Receipt) : option (Dispatcher Receipt) :=
  if exited d then None
  else
    let h := handlerOf d in
    match pick with
    | FromInput =>
      match chanRecv (input h) with
      | Some (rcpt, ch) =>
        Some {| handlerOf :=
                  {| input := Some ch; channel := channel h; stop := stop h;
                     ctx := ctx h; client := client h |};
                spawned := spawned d ++ [SendJob rcpt config];
                exited := false |}
      | None => None
      end
    | FromChannel =>
      match chanRecv (channel h) with
      | Some (sub, ch) =>
        Some {| handlerOf :=
                  {| input := input h; channel := Some ch; stop := stop h;
                     ctx := ctx h; client := client h |};
                spawned := spawned d ++ [SubJob sub];
                exited := false |}
      | None => None
      end
    | FromStop =>
      match chanRecv (stop h) with
      | Some (_, ch) =>
        Some {| handlerOf :=
                  {| input := input h; channel := channel h; stop := Some ch;
                     ctx := ctx h; client := client h |};
                spawned := spawned d;
                exited := true |}
      | None => None
      end
    end.

(** The loop along a sequence of picks. *)
Fixpoint loopRun {Receipt} (config : configType) (picks : list Case)
    (d : Dispatcher Receipt) : option (Dispatcher Receipt) :=
  match picks with
  | [] => Some d
  | pick :: rest =>
    match loopStep config pick d with
    | Some d' => loopRun config rest d'
    | None => None
    end
  end.

(** The loop as [Init] starts it. *)
Definition startLoop {Receipt} (h : Handler Receipt) : Dispatcher Receipt :=
  {| handlerOf := h; spawned := []; exited := false |}.

(** ** More vocabulary *)

(** The same world with another file system. *)
Definition withReadFile {Creds App} (world : Platform Creds App)
    (read : string -> option string + string) : Platform Creds App :=
  {| Unmarshal := Unmarshal world; ReadFile := read;
     CredentialsFromJSON := CredentialsFromJSON world;
     NewApp := NewApp world; Messaging := Messaging world |}.

(** The warning of the inspection for one entry of a response. *)
Definition subErrorLine (uid : Uid) (devices : list string)
    (errinfo : ErrorInfo) : Event :=
  Log Warn [AStr "fcm sub/unsub error"; AStr (Reason errinfo); AUid uid;
            AStr (default "" (devices !! Z.to_nat (Index errinfo)))].

(** A subscription task may make topic calls and print warnings. *)
Definition topicOnly (e : Event) : Prop :=
  match e with
  | Call (CSubscribeToTopic _ _) | Call (CUnsubscribeFromTopic _ _) => True
  | Log Warn _ => True
  | _ => False
  end.

(** The device tokens a provider call carries. *)
Definition tokensOf (c : ProviderCall) : list string :=
  match c with
  | CSend m | CSendDryRun m => [Token m]
  | CSubscribeToTopic tokens _ | CUnsubscribeFromTopic tokens _ => tokens
  end.

(** ** Sample parties for the scenarios *)

Module Sample.

(** One error value per failure the adapter tells apart, and one it does
    not know. *)
Inductive Failure :=
| QuotaExceeded | Unavailable | Internal
| SenderIDMismatch | InvalidArgument | ThirdPartyAuthError
| Unregistered
| Other.

#[export] Instance failure_FcmError : FcmError Failure := {|
  IsQuotaExceeded e := match e with QuotaExceeded => true | _ => false end;
  IsUnavailable e := match e with Unavailable => true | _ => false end;
  IsInternal e := match e with Internal => true | _ => false end;
  IsSenderIDMismatch e := match e with SenderIDMismatch => true | _ => false end;
  IsInvalidArgument e := match e with InvalidArgument => true | _ => false end;
  IsThirdPartyAuthError e :=
    match e with ThirdPartyAuthError => true | _ => false end;
  IsUnregistered e := match e with Unregistered => true | _ => false end;
  ErrorText e := "fcm error"
|}.

(** A receipt reduced to its targets. *)
Definition Receipt : Type := list (Uid * string).

Definition prepare (rcpt : Receipt) (config : configType)
  : list Message * list Uid :=
  (map (fun t => {| Token := snd t; Payload := "new message" |}) rcpt,
   map fst rcpt).

Definition threeDevices : Receipt := [(11, "tokA"); (12, "tokB"); (13, "tokC")].

Definition config (dry : bool) : configType :=
  {| Enabled := true; DryRun := dry; Credentials := Some "{}";
     CredentialsFile := ""; TimeToLive := 3600; ApnsBundleID := "";
     Android := None; Apns := None; Webpush := None |}.

(** User 1 has three devices and three channels, user 2 has 1001 devices,
    everybody else has nothing. *)
Definition devicesOf (u : Uid) : list string :=
  if u =? 1 then ["d1"; "d2"; "d3"]
  else if u =? 2 then repeat "d" 1001
  else [].

Definition channelsOf (u : Uid) : list string :=
  if u =? 1 then ["c1"; "c2"; "c3"] else [].

Definition userId (u : Uid) : string := "usr".

Definition allDone (tokens : list string) : TopicManagementResponse :=
  {| SuccessCount := len tokens; FailureCount := 0; Errors := [] |}.

(** A provider that fails its request number [i] with [e] and accepts
    every other request. *)
Definition failingAt (i : nat) (e : Failure) : Client Failure :=
  {| Send k _ := if (k =? i)%nat then Some e else None;
     SendDryRun k _ := if (k =? i)%nat then Some e else None;
     SubscribeToTopic k tokens _ :=
       if (k =? i)%nat then TopicFailed e else TopicOk (allDone tokens);
     UnsubscribeFromTopic k tokens _ :=
       if (k =? i)%nat then TopicFailed e else TopicOk (allDone tokens) |}.

(** A provider that accepts everything. *)
Definition accepting : Client Failure :=
  {| Send _ _ := None;
     SendDryRun _ _ := None;
     SubscribeToTopic _ tokens _ := TopicOk (allDone tokens);
     UnsubscribeFromTopic _ tokens _ := TopicOk (allDone tokens) |}.

Definition store : DeviceStore := {| Delete _ _ _ := None |}.

End Sample.

(** ** More sample parties *)

Module Fixture.

(** A disabled configuration. *)
Definition off : configType :=
  {| Enabled := false; DryRun := false; Credentials := None;
     CredentialsFile := ""; TimeToLive := 0; ApnsBundleID := "";
     Android := None; Apns := None; Webpush := None |}.

(** A world whose decoder knows four configurations, whose only file is
    /etc/fcm.json and whose provider set-up always works. *)
Definition world : Platform string string :=
  {| Unmarshal j :=
       if String.eqb j "off" then inl off
       else if String.eqb j "inline" then inl (Sample.config false)
       else if String.eqb j "file" then
         inl {| Enabled := true; DryRun := true; Credentials := None;
                CredentialsFile := "/etc/fcm.json"; TimeToLive := 0;
                ApnsBundleID := ""; Android := None; Apns := None;
                Webpush := None |}
       else if String.eqb j "bare" then
         inl {| Enabled := true; DryRun := false; Credentials := None;
                CredentialsFile := ""; TimeToLive := 0;
                ApnsBundleID := ""; Android := None; Apns := None;
                Webpush := None |}
       else inr "unexpected end of JSON input";
     ReadFile path :=
       if String.eqb path "/etc/fcm.json" then inl (Some "{key}")
       else inr "no such file or directory";
     CredentialsFromJSON data := inl data;
     NewApp creds := inl creds;
     Messaging app := (Some {| clientApp := app |}, None) |}.

(** A preparation that forgets the owners. *)
Definition prepareNoOwners (rcpt : Sample.Receipt) (config : configType)
  : list Message * list Uid :=
  (fst (Sample.prepare rcpt config), []).

(** A provider whose topic calls go through and report a failure at index
    1, whatever the device list. *)
Definition misreporting : Client Sample.Failure :=
  {| Send _ _ := None;
     SendDryRun _ _ := None;
     SubscribeToTopic _ _ _ :=
       TopicOk {| SuccessCount := 0; FailureCount := 1;
                  Errors := [{| Index := 1; Reason := "NOT_FOUND" |}] |};
     UnsubscribeFromTopic _ _ _ :=
       TopicOk {| SuccessCount := 0; FailureCount := 1;
                  Errors := [{| Index := 1; Reason := "NOT_FOUND" |}] |} |}.

(** A provider whose topic calls go through and report the first device. *)
Definition reporting : Client Sample.Failure :=
  {| Send _ _ := None;
     SendDryRun _ _ := None;
     SubscribeToTopic _ _ _ :=
       TopicOk {| SuccessCount := 2; FailureCount := 1;
                  Errors := [{| Index := 0; Reason := "NOT_FOUND" |}] |};
     UnsubscribeFromTopic _ _ _ :=
       TopicOk {| SuccessCount := 2; FailureCount := 1;
                  Errors := [{| Index := 0; Reason := "NOT_FOUND" |}] |} |}.

(** A handler with two deliveries and one subscription request waiting. *)
Definition busy : Handler Sample.Receipt :=
  {| input := Some {| capacity := 1024;
                      queue := [[(11, "tokA")]; [(12, "tokB")]] |};
     channel := Some {| capacity := 1024;
                        queue := [{| ReqUid := 1; DeviceID := "d1";
                                     Channel := ""; Unsub := false |}] |};
     stop := Some {| capacity := 1; queue := [] |};
     ctx := Some Background;
     client := Some {| clientApp := "chat" |} |}.

End Fixture.

(** ** The adapter *)

Section Adapter.

Context {E : Type} `{FcmError E}.

(** [push.Receipt], opaque to this file. *)
Variable Receipt : Type.

(** Functions of package fcm declared outside push_fcm.go, and
    [types.Uid.UserId]. *)
Variable PrepareNotifications : Receipt -> configType -> list Message * list Uid.
Variable DevicesForUser : Uid -> list string.
Variable ChannelsForUser : Uid -> list string.
Variable UserId : Uid -> string.

Variable fcm : Client E.
Variable Devices : DeviceStore.

(** *** Provider and store requests as tasks *)

Definition clientSend (m : Message) : Task (option E) :=
  fun tr => (Returned (Send fcm (length (calls tr)) m), tr ++ [Call (CSend m)]).

Definition clientSendDryRun (m : Message) : Task (option E) :=
  fun tr =>
    (Returned (SendDryRun fcm (length (calls tr)) m),
     tr ++ [Call (CSendDryRun m)]).

Definition clientSubscribeToTopic (tokens : list string) (topic : string)
  : Task (TopicReply E) :=
  fun tr =>
    (Returned (SubscribeToTopic fcm (length (calls tr)) tokens topic),
     tr ++ [Call (CSubscribeToTopic tokens topic)]).

Definition clientUnsubscribeFromTopic (tokens : list string) (topic : string)
  : Task (TopicReply E) :=
  fun tr =>
    (Returned (UnsubscribeFromTopic fcm (length (calls tr)) tokens topic),
     tr ++ [Call (CUnsubscribeFromTopic tokens topic)]).

Definition storeDelete (uid : Uid) (token : string) : Task (option string) :=
  fun tr =>
    (Returned (Delete Devices (length (deletes tr)) uid token),
     tr ++ [DeviceDelete uid token]).

(** *** sendFcm *)

(** The body of [for i := range messages], from index [i] on; [ms] is
    [messages[i:]].  A Go [return] inside the loop ends the recursion. *)
Fixpoint sendFrom (config : configType) (uids : list Uid)
    (i : nat) (ms : list Message) : Task unit :=
  match ms with
  | [] => ret tt
  | m :: rest =>
    err <- (if DryRun config then clientSendDryRun m else clientSend m) ;;
    match err with
    | None => sendFrom config uids (S i) rest
    | Some e =>
      if IsQuotaExceeded e || IsUnavailable e || IsInternal e then
        (* Transient errors. Stop sending this batch. *)
        logWarn [AStr "fcm transient failure:"; AStr (ErrorText e)]
      else if IsSenderIDMismatch e || IsInvalidArgument e
              || IsThirdPartyAuthError e then
        (* Config errors. Stop. *)
        logWarn [AStr "fcm invalid config:"; AStr (ErrorText e)]
      else if IsUnregistered e then
        (* Token is no longer valid. Delete token from DB and continue. *)
        logWarn [AStr "fcm invalid token:"; AStr (ErrorText e)] ;;;
        uid <- index uids (Z.of_nat i) ;;
        derr <- storeDelete uid (Token m) ;;
        match derr with
        | Some d => logWarn [AStr "fcm failed to delete invalid token:"; AStr d]
        | None => ret tt
        end ;;;
        sendFrom config uids (S i) rest
      else
        (* Unknown error. Stop sending just in case. *)
        logWarn [AStr "fcm unrecognized error:"; AStr (ErrorText e)]
    end
  end.

Definition sendFcm (rcpt : Receipt) (config : configType) : Task unit :=
  let '(messages, uids) := PrepareNotifications rcpt config in
  sendFrom config uids 0 messages.

(** *** handleSubErrors *)

(** [for _, errinfo := range response.Errors]: the argument
    [devices[errinfo.Index]] is evaluated before [Println] runs. *)
Fixpoint logSubErrors (uid : Uid) (devices : list string)
    (errs : list ErrorInfo) : Task unit :=
  match errs with
  | [] => ret tt
  | errinfo :: rest =>
    d <- index devices (Index errinfo) ;;
    logWarn [AStr "fcm sub/unsub error"; AStr (Reason errinfo); AUid uid; AStr d] ;;;
    logSubErrors uid devices rest
  end.

Definition handleSubErrors (response : TopicManagementResponse) (uid : Uid)
    (devices : list string) : Task unit :=
  if FailureCount response <=? 0 then ret tt
  else logSubErrors uid devices (Errors response).

(** *** processSubscription *)

(** The first [if]/[else if]: the locals [(channel, devices, device,
    channels)], each left at its zero value unless assigned. *)
Definition resolve (req : ChannelReq)
  : string * list string * string * list string :=
  if nonempty (Channel req) then
    (Channel req, DevicesForUser (ReqUid req), "", [])
  else if nonempty (DeviceID req) then
    ("", [], DeviceID req, ChannelsForUser (ReqUid req))
  else ("", [], "", []).

(** The sub or unsub call picked by [req.Unsub]. *)
Definition topicCall (req : ChannelReq) (devices : list string)
    (channel : string) : Task (TopicReply E) :=
  if Unsub req then clientUnsubscribeFromTopic devices channel
  else clientSubscribeToTopic devices channel.

Definition logSubFailed (req : ChannelReq) (err : E) : Task unit :=
  logWarn [AStr "fcm: sub or upsub failed"; ABool (Unsub req);
           AStr (ErrorText err)].

(** [for _, channel := range channels] with its [break]. *)
Fixpoint subscribeEach (req : ChannelReq) (devices channels : list string)
  : Task unit :=
  match channels with
  | [] => ret tt
  | channel :: rest =>
    r <- topicCall req devices channel ;;
    match r with
    | TopicFailed err =>
      (* Complete failure. *)
      logSubFailed req err
    | TopicOk resp =>
      (* Check for partial failure. *)
      handleSubErrors resp (ReqUid req) devices ;;;
      subscribeEach req devices rest
    end
  end.

(** The function from its first guard on, over the four locals. *)
Definition dispatch (req : ChannelReq)
    (locals : string * list string * string * list string) : Task unit :=
  let '(channel, devices, device, channels) := locals in
  if (len devices =? 0) && String.eqb device ""
     || (len channels =? 0) && String.eqb channel "" then
    (* No channels or devices to subscribe or unsubscribe. *)
    ret tt
  else
    (* the slice is cut before the warning is printed; the warning does not
       mention it *)
    devices <- (if len devices >? subBatchSize then
                  logWarn [AStr "fcm: user"; AStr (UserId (ReqUid req));
                           AStr "has more than"; AInt subBatchSize;
                           AStr "devices"] ;;;
                  ret (take (Z.to_nat subBatchSize) devices)
                else ret devices) ;;
    if nonempty channel && (len devices >? 0) then
      r <- topicCall req devices channel ;;
      match r with
      | TopicFailed err => logSubFailed req err
      | TopicOk resp => handleSubErrors resp (ReqUid req) devices
      end
    else if nonempty device && (len channels >? 0) then
      subscribeEach req [device] channels
    else
      (* Invalid request. *)
      logErr [AStr "fcm: user"; AStr (UserId (ReqUid req));
              AStr "invalid combination of sub/unsub channels/devices";
              AInt (len devices); AInt (len channels)].

Definition processSubscription (req : ChannelReq) : Task unit :=
  dispatch req (resolve req).

(** *** Vocabulary of the statements *)

(** The branch of [sendFcm] an error value takes. *)
Definition classify (e : E) : ErrorClass :=
  if IsQuotaExceeded e || IsUnavailable e || IsInternal e then Transient
  else if IsSenderIDMismatch e || IsInvalidArgument e
          || IsThirdPartyAuthError e then ConfigError
  else if IsUnregistered e then InvalidToken
  else Unknown.

(** The request [sendFcm] makes for a message, and the provider's answer
    when it is the task's request number [k]. *)
Definition sendCall (config : configType) (m : Message) : ProviderCall :=
  if DryRun config then CSendDryRun m else CSend m.

Definition sendReply (config : configType) (k : nat) (m : Message) : option E :=
  if DryRun config then SendDryRun fcm k m else Send fcm k m.

(** The same for the topic call picked by [req.Unsub]. *)
Definition topicRequest (req : ChannelReq) (devices : list string)
    (channel : string) : ProviderCall :=
  if Unsub req then CUnsubscribeFromTopic devices channel
  else CSubscribeToTopic devices channel.

Definition topicReply (req : ChannelReq) (k : nat) (devices : list string)
    (channel : string) : TopicReply E :=
  if Unsub req then UnsubscribeFromTopic fcm k devices channel
  else SubscribeToTopic fcm k devices channel.


(** The warning about an account with more than [subBatchSize] devices. *)
Definition tooManyDevices (req : ChannelReq) : list LogArg :=
  [AStr "fcm: user"; AStr (UserId (ReqUid req)); AStr "has more than";
   AInt subBatchSize; AStr "devices"].

(** The warning about a topic call that failed outright. *)
Definition subFailed (req : ChannelReq) (err : E) : list LogArg :=
  [AStr "fcm: sub or upsub failed"; ABool (Unsub req); AStr (ErrorText err)].

(** The warning [sendFcm] prints before it stops the batch. *)
Definition stopWarning (e : E) : list LogArg :=
  match classify e with
  | Transient => [AStr "fcm transient failure:"; AStr (ErrorText e)]
  | ConfigError => [AStr "fcm invalid config:"; AStr (ErrorText e)]
  | _ => [AStr "fcm unrecognized error:"; AStr (ErrorText e)]
  end.

(** The trace once the invalid-token branch of [sendFcm] has run for message
    [m] of owner [u]: the send, the warning, the delete and, when the store
    refuses the delete, a second warning. *)
Definition tokenDropped (config : configType) (tr : Trace) (m : Message)
    (e : E) (u : Uid) : Trace :=
  tr ++ [Call (sendCall config m);
         Log Warn [AStr "fcm invalid token:"; AStr (ErrorText e)];
         DeviceDelete u (Token m)]
     ++ match Delete Devices (length (deletes tr)) u (Token m) with
        | Some d => [Log Warn [AStr "fcm failed to delete invalid token:"; AStr d]]
        | None => []
        end.

(** The loop moves on past message [m], request number [k] of the task and
    owned by [uids[i]]: the provider accepts the send, or it reports the
    token invalid and the owner is there for the delete. *)
Definition goesOn (config : configType) (uids : list Uid) (i k : nat)
    (m : Message) : Prop :=
  sendReply config k m = None \/
  exists e,
    sendReply config k m = Some e /\ classify e = InvalidToken /\
    is_Some (uids !! i).

(** ** Traces *)

Lemma calls_app (tr1 tr2 : Trace) : calls (tr1 ++ tr2) = calls tr1 ++ calls tr2.
Proof. apply omap_app. Qed.

Lemma deletes_app (tr1 tr2 : Trace) :
  deletes (tr1 ++ tr2) = deletes tr1 ++ deletes tr2.
Proof. apply omap_app. Qed.

Lemma logged_app (tr1 tr2 : Trace) :
  logged (tr1 ++ tr2) = logged tr1 ++ logged tr2.
Proof. apply omap_app. Qed.

Lemma calls_cons_call (c : ProviderCall) (tr : Trace) :
  calls (Call c :: tr) = c :: calls tr.
Proof. reflexivity. Qed.

Lemma calls_cons_log (lvl : Level) (args : list LogArg) (tr : Trace) :
  calls (Log lvl args :: tr) = calls tr.
Proof. reflexivity. Qed.

Lemma calls_of_calls (cs : list ProviderCall) : calls (map Call cs) = cs.
Proof. induction cs as [|c cs IH]; [reflexivity|]. cbn. now rewrite <- IH at 2. Qed.

Lemma deletes_of_calls (cs : list ProviderCall) : deletes (map Call cs) = [].
Proof. induction cs as [|c cs IH]; [reflexivity|]. exact IH. Qed.

Lemma index_of_nat {A} (l : list A) (i : nat) (tr : Trace) :
  index l (Z.of_nat i) tr =
  match l !! i with
  | Some a => (Returned a, tr)
  | None => (Panicked, tr)
  end.
Proof.
  unfold index, len. rewrite Nat2Z.id.
  destruct (l !! i) as [a|] eqn:Hl.
  - apply lookup_lt_Some in Hl.
    replace (0 <=? Z.of_nat i) with true by (symmetry; apply Z.leb_le; lia).
    replace (Z.of_nat i <? Z.of_nat (length l)) with true
      by (symmetry; apply Z.ltb_lt; lia).
    reflexivity.
  - now destruct ((0 <=? Z.of_nat i) && (Z.of_nat i <? Z.of_nat (length l))).
Qed.

(** ** The sending loop, one message at a time *)

(** The SDK predicates each test for one error code; for an error value
    that is unregistered and nothing else the third branch is taken. *)
Lemma classify_unregistered (e : E) :
  IsUnregistered e = true ->
  IsQuotaExceeded e = false -> IsUnavailable e = false ->
  IsInternal e = false -> IsSenderIDMismatch e = false ->
  IsInvalidArgument e = false -> IsThirdPartyAuthError e = false ->
  classify e = InvalidToken.
Proof. unfold classify. now intros -> -> -> -> -> -> ->. Qed.

(** Every error value falls into exactly one class, and every class but
    [InvalidToken] stops the batch. *)
Lemma classify_total (e : E) :
  classify e = Transient \/ classify e = ConfigError \/
  classify e = InvalidToken \/ classify e = Unknown.
Proof. destruct (classify e); auto. Qed.

Lemma send_step (config : configType) (m : Message) (tr : Trace) :
  (if DryRun config then clientSendDryRun m else clientSend m) tr =
  (Returned (sendReply config (length (calls tr)) m),
   tr ++ [Call (sendCall config m)]).
Proof. unfold sendReply, sendCall. now destruct (DryRun config). Qed.

Lemma calls_snoc_call (tr : Trace) (c : ProviderCall) :
  length (calls (tr ++ [Call c])) = S (length (calls tr)).
Proof. rewrite calls_app, length_app. cbn. lia. Qed.

Lemma sendFrom_accepted config uids i m rest tr :
  sendReply config (length (calls tr)) m = None ->
  sendFrom config uids i (m :: rest) tr =
  sendFrom config uids (S i) rest (tr ++ [Call (sendCall config m)]).
Proof.
  intros Hr. cbn [sendFrom]. unfold bind at 1. now rewrite send_step, Hr.
Qed.

Lemma sendFrom_stopped config uids i m rest tr e :
  sendReply config (length (calls tr)) m = Some e ->
  classify e <> InvalidToken ->
  sendFrom config uids i (m :: rest) tr =
  (Returned tt, tr ++ [Call (sendCall config m); Log Warn (stopWarning e)]).
Proof.
  intros Hr Hc. cbn [sendFrom]. unfold bind at 1. rewrite send_step, Hr.
  unfold stopWarning. unfold classify in *.
  destruct (IsQuotaExceeded e || IsUnavailable e || IsInternal e);
    [|destruct (IsSenderIDMismatch e || IsInvalidArgument e
                || IsThirdPartyAuthError e);
      [|destruct (IsUnregistered e); [congruence|]]];
    unfold logWarn, emit; rewrite <- app_assoc; reflexivity.
Qed.

Lemma sendFrom_dropped config uids i m rest tr e u :
  sendReply config (length (calls tr)) m = Some e ->
  classify e = InvalidToken ->
  uids !! i = Some u ->
  sendFrom config uids i (m :: rest) tr =
  sendFrom config uids (S i) rest (tokenDropped config tr m e u).
Proof.
  intros Hr Hc Hu. cbn [sendFrom]. unfold bind at 1. rewrite send_step, Hr.
  unfold classify in Hc.
  destruct (IsQuotaExceeded e || IsUnavailable e || IsInternal e);
    [discriminate|].
  destruct (IsSenderIDMismatch e || IsInvalidArgument e
            || IsThirdPartyAuthError e); [discriminate|].
  destruct (IsUnregistered e); [|discriminate].
  unfold bind, logWarn, emit, storeDelete, tokenDropped.
  rewrite index_of_nat, Hu.
  rewrite !deletes_app. cbn [deletes omap provider_call device_delete].
  rewrite !app_nil_r.
  destruct (Delete Devices (length (deletes tr)) u (Token m));
    unfold ret; rewrite <- ?app_assoc; cbn [app]; reflexivity.
Qed.

Lemma sendFrom_no_owner config uids i m rest tr e :
  sendReply config (length (calls tr)) m = Some e ->
  classify e = InvalidToken ->
  uids !! i = None ->
  sendFrom config uids i (m :: rest) tr =
  (Panicked,
   tr ++ [Call (sendCall config m);
          Log Warn [AStr "fcm invalid token:"; AStr (ErrorText e)]]).
Proof.
  intros Hr Hc Hu. cbn [sendFrom]. unfold bind at 1. rewrite send_step, Hr.
  unfold classify in Hc.
  destruct (IsQuotaExceeded e || IsUnavailable e || IsInternal e);
    [discriminate|].
  destruct (IsSenderIDMismatch e || IsInvalidArgument e
            || IsThirdPartyAuthError e); [discriminate|].
  destruct (IsUnregistered e); [|discriminate].
  unfold bind, logWarn, emit. rewrite index_of_nat, Hu.
  rewrite <- app_assoc. reflexivity.
Qed.

Lemma tokenDropped_calls config tr m e u :
  calls (tokenDropped config tr m e u) = calls tr ++ [sendCall config m].
Proof.
  unfold tokenDropped. rewrite !calls_app.
  destruct (Delete Devices _ u (Token m)); cbn; now rewrite ?app_nil_r.
Qed.

Lemma tokenDropped_deletes config tr m e u :
  deletes (tokenDropped config tr m e u) = deletes tr ++ [(u, Token m)].
Proof.
  unfold tokenDropped. rewrite !deletes_app.
  destruct (Delete Devices _ u (Token m)); cbn; now rewrite ?app_nil_r.
Qed.

(** ** The sending loop, whole batches *)

(** Messages the provider accepts are sent one after the other and leave
    nothing but their calls in the trace. *)
Lemma sendFrom_app_accepted config uids pre rest :
  forall i tr,
    (forall j m, pre !! j = Some m ->
                 sendReply config (length (calls tr) + j) m = None) ->
    sendFrom config uids i (pre ++ rest) tr =
    sendFrom config uids (i + length pre) rest
             (tr ++ map Call (map (sendCall config) pre)).
Proof.
  induction pre as [|m pre IH]; intros i tr Hok.
  - cbn. now rewrite app_nil_r, Nat.add_0_r.
  - cbn [app]. rewrite sendFrom_accepted.
    + rewrite IH.
      * cbn [length map]. rewrite <- app_assoc. cbn [app].
        now replace (S i + length pre)%nat with (i + S (length pre))%nat by lia.
      * intros j m' Hj. rewrite calls_snoc_call.
        replace (S (length (calls tr)) + j)%nat
          with (length (calls tr) + S j)%nat by lia.
        now apply Hok.
    + specialize (Hok 0%nat m eq_refl). now rewrite Nat.add_0_r in Hok.
Qed.

Lemma sendFrom_all_accepted config uids ms i tr :
  (forall j m, ms !! j = Some m ->
               sendReply config (length (calls tr) + j) m = None) ->
  sendFrom config uids i ms tr =
  (Returned tt, tr ++ map Call (map (sendCall config) ms)).
Proof.
  intros Hok. rewrite <- (app_nil_r ms) at 1.
  now rewrite sendFrom_app_accepted.
Qed.

(** Whatever the provider answers, the calls of a batch are a prefix of the
    message list, in list order. *)
Lemma sendFrom_calls_prefix config uids ms :
  forall i tr,
  exists n,
    calls (snd (sendFrom config uids i ms tr)) =
    calls tr ++ map (sendCall config) (take n ms).
Proof.
  induction ms as [|m rest IH]; intros i tr.
  - exists 0%nat. cbn. now rewrite app_nil_r.
  - destruct (sendReply config (length (calls tr)) m) as [e|] eqn:Hr.
    + destruct (classify e) eqn:Hc.
      1,2,4: rewrite (sendFrom_stopped config uids i m rest tr e Hr)
        by congruence; exists 1%nat; cbn [snd]; rewrite calls_app; reflexivity.
      destruct (uids !! i) as [u|] eqn:Hu.
      * rewrite (sendFrom_dropped config uids i m rest tr e u Hr Hc Hu).
        destruct (IH (S i) (tokenDropped config tr m e u)) as [n Hn].
        exists (S n). rewrite Hn, tokenDropped_calls, <- app_assoc. reflexivity.
      * rewrite (sendFrom_no_owner config uids i m rest tr e Hr Hc Hu).
        exists 1%nat. cbn [snd]. rewrite calls_app. reflexivity.
    + rewrite (sendFrom_accepted config uids i m rest tr Hr).
      destruct (IH (S i) (tr ++ [Call (sendCall config m)])) as [n Hn].
      exists (S n). rewrite Hn, calls_app, <- app_assoc. reflexivity.
Qed.

(** When the request for message [j] of the batch is made and the provider
    answers it with an error of a stopping class, the task returns with
    that call and its warning as the last two events. *)
Lemma sendFrom_stops_at config uids ms :
  forall i tr j m e,
    ms !! j = Some m ->
    sendReply config (length (calls tr) + j) m = Some e ->
    classify e <> InvalidToken ->
    (length (calls tr) + j < length (calls (snd (sendFrom config uids i ms tr))))%nat ->
    exists pre,
      sendFrom config uids i ms tr =
      (Returned tt,
       tr ++ pre ++ [Call (sendCall config m); Log Warn (stopWarning e)]) /\
      calls pre = map (sendCall config) (take j ms).
Proof.
  induction ms as [|m0 rest IH]; intros i tr j m e Hj Hr Hc Hmade;
    [discriminate|].
  destruct j as [|j].
  - injection Hj as ->. rewrite Nat.add_0_r in Hr.
    exists []. now rewrite (sendFrom_stopped config uids i m rest tr e Hr Hc).
  - cbn in Hj.
    assert (Hnext : forall tr1 : Trace,
      length (calls tr1) = S (length (calls tr)) ->
      calls tr1 = calls tr ++ [sendCall config m0] ->
      (forall suffix, tr1 = tr ++ suffix ->
        (length (calls tr) + S j <
           length (calls (snd (sendFrom config uids (S i) rest tr1))))%nat ->
        exists pre,
          sendFrom config uids (S i) rest tr1 =
          (Returned tt,
           tr ++ pre ++ [Call (sendCall config m); Log Warn (stopWarning e)]) /\
          calls pre = map (sendCall config) (take (S j) (m0 :: rest)))).
    { intros tr1 Hlen Hcalls suffix -> Hm.
      destruct (IH (S i) (tr ++ suffix) j m e Hj) as (pre & Heq & Hpre).
      - rewrite Hlen. now replace (S (length (calls tr)) + j)%nat
          with (length (calls tr) + S j)%nat by lia.
      - exact Hc.
      - rewrite Hlen. lia.
      - exists (suffix ++ pre). split.
        + rewrite Heq. now rewrite <- !app_assoc.
        + rewrite calls_app, Hpre. cbn [take map]. f_equal.
          rewrite calls_app in Hcalls. apply app_inv_head in Hcalls.
          now rewrite Hcalls. }
    destruct (sendReply config (length (calls tr)) m0) as [e0|] eqn:Hr0.
    + destruct (classify e0) eqn:Hc0.
      1,2,4: exfalso;
        rewrite (sendFrom_stopped config uids i m0 rest tr e0 Hr0) in Hmade
          by congruence;
        cbn [snd] in Hmade; rewrite calls_app, length_app in Hmade;
        cbn in Hmade; lia.
      destruct (uids !! i) as [u|] eqn:Hu.
      * rewrite (sendFrom_dropped config uids i m0 rest tr e0 u Hr0 Hc0 Hu) in *.
        eapply (Hnext (tokenDropped config tr m0 e0 u)).
        -- rewrite tokenDropped_calls, length_app. cbn. lia.
        -- apply tokenDropped_calls.
        -- unfold tokenDropped. reflexivity.
        -- exact Hmade.
      * exfalso.
        rewrite (sendFrom_no_owner config uids i m0 rest tr e0 Hr0 Hc0 Hu)
          in Hmade.
        cbn [snd] in Hmade.
        rewrite calls_app, length_app in Hmade. cbn in Hmade. lia.
    + rewrite (sendFrom_accepted config uids i m0 rest tr Hr0) in *.
      eapply (Hnext (tr ++ [Call (sendCall config m0)])).
      * apply calls_snoc_call.
      * now rewrite calls_app.
      * reflexivity.
      * exact Hmade.
Qed.

(** ** Deliveries *)

(** C7. When the provider accepts every message of a delivery, [sendFcm]
    makes exactly one provider call per prepared message, in list order,
    and issues no device-store delete (it leaves nothing else in the trace
    either). *)
Theorem sendFcm_all_accepted rcpt config messages uids :
  PrepareNotifications rcpt config = (messages, uids) ->
  (forall k m, messages !! k = Some m -> sendReply config k m = None) ->
  outcome (sendFcm rcpt config) = Returned tt /\
  run (sendFcm rcpt config) = map Call (map (sendCall config) messages) /\
  calls (run (sendFcm rcpt config)) = map (sendCall config) messages /\
  length (calls (run (sendFcm rcpt config))) = length messages /\
  deletes (run (sendFcm rcpt config)) = [].
Proof.
  intros Hprep Hok. unfold outcome, run, sendFcm. rewrite Hprep.
  rewrite sendFrom_all_accepted by (intros j m Hj; now apply Hok).
  cbn [fst snd app]. rewrite calls_of_calls, deletes_of_calls, length_map.
  repeat split; reflexivity.
Qed.

(** C2. When the provider answers the request for message [i] with an
    invalid-token error and accepts every other message, [sendFcm] issues
    exactly one device-store delete, for the owner and the token of message
    [i], and goes on to the end of the list: one provider call per message,
    in list order. *)
Theorem sendFcm_invalid_token rcpt config messages uids i m u e :
  PrepareNotifications rcpt config = (messages, uids) ->
  messages !! i = Some m ->
  uids !! i = Some u ->
  sendReply config i m = Some e ->
  classify e = InvalidToken ->
  (forall k m', k <> i -> messages !! k = Some m' ->
                sendReply config k m' = None) ->
  outcome (sendFcm rcpt config) = Returned tt /\
  calls (run (sendFcm rcpt config)) = map (sendCall config) messages /\
  length (calls (run (sendFcm rcpt config))) = length messages /\
  deletes (run (sendFcm rcpt config)) = [(u, Token m)].
Proof.
  intros Hprep Hm Hu Hr Hc Hok.
  assert (Hi : (i < length messages)%nat) by (eapply lookup_lt_Some; eauto).
  assert (Hrun : sendFcm rcpt config [] =
    (Returned tt,
     tokenDropped config (map Call (map (sendCall config) (take i messages)))
                  m e u
       ++ map Call (map (sendCall config) (drop (S i) messages)))).
  { unfold sendFcm. rewrite Hprep.
    rewrite <- (take_drop_middle messages i m Hm) at 1.
    rewrite sendFrom_app_accepted.
    2:{ intros j m' Hj. change (length (calls [])) with 0%nat. cbn [Nat.add].
        apply lookup_take_Some in Hj as [Hj Hlt]. apply Hok; [lia|done]. }
    cbn [app Nat.add]. rewrite length_take_le by lia.
    rewrite (sendFrom_dropped config uids i m _ _ e u); [| |exact Hc|exact Hu].
    2:{ now rewrite calls_of_calls, !length_map, length_take_le by lia. }
    apply sendFrom_all_accepted.
    intros j m' Hj. rewrite lookup_drop in Hj.
    rewrite tokenDropped_calls, length_app, calls_of_calls, !length_map,
      length_take_le by lia.
    cbn [length]. apply Hok; [lia|].
    now replace (i + 1 + j)%nat with (S i + j)%nat by lia. }
  assert (Hcalls : calls (run (sendFcm rcpt config)) =
                   map (sendCall config) messages).
  { unfold run. rewrite Hrun. cbn [snd].
    rewrite calls_app, tokenDropped_calls, !calls_of_calls.
    rewrite <- (take_drop_middle messages i m Hm) at 3.
    now rewrite map_app, <- app_assoc. }
  split; [unfold outcome; now rewrite Hrun|].
  split; [exact Hcalls|].
  split; [now rewrite Hcalls, length_map|].
  unfold run. rewrite Hrun. cbn [snd].
  now rewrite deletes_app, tokenDropped_deletes, !deletes_of_calls.
Qed.

(** C3. When the request for message [i] is made and the provider answers
    it with a transient, a configuration or an unknown error, [sendFcm]
    returns at once: the call for message [i] and the warning about it are
    the last two events of the task, so no later message is attempted (the
    calls are those for messages [0..i]) and no delete follows the error. *)
Theorem sendFcm_stops rcpt config messages uids i m e :
  PrepareNotifications rcpt config = (messages, uids) ->
  messages !! i = Some m ->
  (i < length (calls (run (sendFcm rcpt config))))%nat ->
  sendReply config i m = Some e ->
  classify e = Transient \/ classify e = ConfigError \/ classify e = Unknown ->
  outcome (sendFcm rcpt config) = Returned tt /\
  calls (run (sendFcm rcpt config)) = map (sendCall config) (take (S i) messages) /\
  length (calls (run (sendFcm rcpt config))) = S i /\
  exists pre,
    run (sendFcm rcpt config) =
      pre ++ [Call (sendCall config m); Log Warn (stopWarning e)] /\
    calls pre = map (sendCall config) (take i messages) /\
    deletes (run (sendFcm rcpt config)) = deletes pre.
Proof.
  intros Hprep Hm Hmade Hr Hc.
  assert (Hi : (i < length messages)%nat) by (eapply lookup_lt_Some; eauto).
  unfold outcome, run, sendFcm in *. rewrite Hprep in *.
  destruct (sendFrom_stops_at config uids messages 0 [] i m e Hm)
    as (pre & Heq & Hpre).
  - exact Hr.
  - destruct Hc as [Hc|[Hc|Hc]]; congruence.
  - exact Hmade.
  - rewrite Heq. cbn [fst snd app].
    assert (Hcalls : calls (pre ++ [Call (sendCall config m);
                                    Log Warn (stopWarning e)]) =
                     map (sendCall config) (take (S i) messages)).
    { rewrite calls_app, Hpre, (take_S_r messages i m Hm), map_app.
      reflexivity. }
    split; [reflexivity|]. split; [exact Hcalls|].
    split; [rewrite Hcalls, length_map, length_take_le; lia|].
    exists pre. split; [reflexivity|]. split; [exact Hpre|].
    rewrite deletes_app. cbn. now rewrite app_nil_r.
Qed.

(** ** Dry run *)

Lemma viaDryRun_calls_length (tr : Trace) :
  length (calls (map viaDryRun tr)) = length (calls tr).
Proof.
  unfold calls. induction tr as [|ev tr IH]; [reflexivity|].
  destruct ev as [[]| |]; cbn; congruence.
Qed.

Lemma viaDryRun_deletes (tr : Trace) : deletes (map viaDryRun tr) = deletes tr.
Proof.
  unfold deletes. induction tr as [|ev tr IH]; [reflexivity|].
  destruct ev as [[]| |]; cbn; congruence.
Qed.

(** With equal answers from the provider, the dry-run loop and the real loop
    run in lock step: same outcome, same events up to the kind of send. *)
Lemma sendFrom_dry_twin dry real uids :
  DryRun dry = true ->
  DryRun real = false ->
  (forall k m, SendDryRun fcm k m = Send fcm k m) ->
  forall ms i tr,
    sendFrom dry uids i ms (map viaDryRun tr) =
    (fst (sendFrom real uids i ms tr),
     map viaDryRun (snd (sendFrom real uids i ms tr))).
Proof.
  intros Hd Hr Hsame.
  assert (Hcall : forall m, sendCall dry m = CSendDryRun m)
    by (intros; unfold sendCall; now rewrite Hd).
  assert (Hcall' : forall m, sendCall real m = CSend m)
    by (intros; unfold sendCall; now rewrite Hr).
  assert (Hreply : forall tr m,
    sendReply dry (length (calls (map viaDryRun tr))) m =
    sendReply real (length (calls tr)) m).
  { intros. unfold sendReply. now rewrite Hd, Hr, viaDryRun_calls_length. }
  induction ms as [|m rest IH]; intros i tr; [reflexivity|].
  specialize (Hreply tr m).
  destruct (sendReply real (length (calls tr)) m) as [e|] eqn:Hans.
  - destruct (classify e) eqn:Hc.
    1,2,4: rewrite (sendFrom_stopped dry uids i m rest _ e Hreply),
             (sendFrom_stopped real uids i m rest _ e Hans) by congruence;
           cbn [fst snd]; now rewrite map_app, Hcall, Hcall'.
    destruct (uids !! i) as [u|] eqn:Hu.
    + rewrite (sendFrom_dropped dry uids i m rest _ e u Hreply Hc Hu),
        (sendFrom_dropped real uids i m rest _ e u Hans Hc Hu).
      rewrite <- IH. f_equal.
      unfold tokenDropped.
      rewrite !map_app, viaDryRun_deletes, Hcall, Hcall'.
      now destruct (Delete Devices (length (deletes tr)) u (Token m)).
    + rewrite (sendFrom_no_owner dry uids i m rest _ e Hreply Hc Hu),
        (sendFrom_no_owner real uids i m rest _ e Hans Hc Hu).
      cbn [fst snd]. now rewrite map_app, Hcall, Hcall'.
  - rewrite (sendFrom_accepted dry uids i m rest _ Hreply),
      (sendFrom_accepted real uids i m rest _ Hans).
    rewrite <- IH. f_equal. now rewrite map_app, Hcall, Hcall'.
Qed.

(** The request for the first message of a batch is always made; what
    follows depends on the answer. *)
Lemma sendFrom_head config uids i m rest tr :
  (goesOn config uids i (length (calls tr)) m /\
   exists tr1,
     sendFrom config uids i (m :: rest) tr =
     sendFrom config uids (S i) rest tr1 /\
     calls tr1 = calls tr ++ [sendCall config m]) \/
  (~ goesOn config uids i (length (calls tr)) m /\
   exists o tr1,
     sendFrom config uids i (m :: rest) tr = (o, tr1) /\
     calls tr1 = calls tr ++ [sendCall config m]).
Proof.
  destruct (sendReply config (length (calls tr)) m) as [e|] eqn:Hr.
  - destruct (classify e) eqn:Hc.
    1,2,4: right; split;
      [intros [Hnone|(e' & He' & Hc' & _)]; congruence|];
      rewrite (sendFrom_stopped config uids i m rest tr e Hr) by congruence;
      eexists _, _; split; [reflexivity|now rewrite calls_app].
    destruct (uids !! i) as [u|] eqn:Hu.
    + left. split.
      * right. exists e. rewrite Hu. repeat split; eauto.
      * rewrite (sendFrom_dropped config uids i m rest tr e u Hr Hc Hu).
        eexists. split; [reflexivity|apply tokenDropped_calls].
    + right. split.
      * intros [Hnone|(e' & He' & Hc' & [u Hu'])]; congruence.
      * rewrite (sendFrom_no_owner config uids i m rest tr e Hr Hc Hu).
        eexists _, _. split; [reflexivity|now rewrite calls_app].
  - left. split; [now left|].
    rewrite (sendFrom_accepted config uids i m rest tr Hr).
    eexists. split; [reflexivity|now rewrite calls_app].
Qed.

(** The request for message [j] of a batch is made exactly when the loop
    moves on past every message before it. *)
Lemma sendFrom_sent_iff config uids ms :
  forall i tr j m,
    ms !! j = Some m ->
    calls (snd (sendFrom config uids i ms tr)) !! (length (calls tr) + j)%nat =
      Some (sendCall config m) <->
    forall k m', (k < j)%nat -> ms !! k = Some m' ->
      goesOn config uids (i + k) (length (calls tr) + k) m'.
Proof.
  induction ms as [|m0 rest IH]; intros i tr j m Hj; [discriminate|].
  destruct (sendFrom_head config uids i m0 rest tr)
    as [(Hon & tr1 & Heq & Hcalls)|(Hoff & o & tr1 & Heq & Hcalls)].
  - rewrite Heq.
    assert (Hlen : length (calls tr1) = S (length (calls tr)))
      by (rewrite Hcalls, length_app; cbn; lia).
    destruct j as [|j].
    + injection Hj as <-. split; [intros _ k m' Hk; lia|]. intros _.
      destruct (sendFrom_calls_prefix config uids rest (S i) tr1) as [n ->].
      rewrite Hcalls, <- app_assoc, Nat.add_0_r. cbn [app].
      now apply list_lookup_middle.
    + cbn in Hj.
      replace (length (calls tr) + S j)%nat with (length (calls tr1) + j)%nat
        by lia.
      rewrite (IH (S i) tr1 j m Hj). split.
      * intros Hall [|k] m' Hk Hm'.
        -- injection Hm' as <-. now rewrite !Nat.add_0_r.
        -- cbn in Hm'.
           replace (i + S k)%nat with (S i + k)%nat by lia.
           replace (length (calls tr) + S k)%nat
             with (length (calls tr1) + k)%nat by lia.
           apply Hall; [lia|exact Hm'].
      * intros Hall k m' Hk Hm'.
        replace (S i + k)%nat with (i + S k)%nat by lia.
        replace (length (calls tr1) + k)%nat
          with (length (calls tr) + S k)%nat by lia.
        apply Hall; [lia|exact Hm'].
  - rewrite Heq. cbn [snd]. rewrite Hcalls.
    destruct j as [|j].
    + injection Hj as <-. split; [intros _ k m' Hk; lia|]. intros _.
      rewrite Nat.add_0_r. now apply list_lookup_middle.
    + split.
      * intros Hget. apply lookup_lt_Some in Hget.
        rewrite length_app in Hget. cbn in Hget. lia.
      * intros Hall. exfalso. apply Hoff.
        specialize (Hall 0%nat m0). rewrite !Nat.add_0_r in Hall.
        apply Hall; [lia|reflexivity].
Qed.

(** C8. With [dry_run] set every request of a delivery is a [SendDryRun] and
    [Send] is never called; with [dry_run] unset every request is a [Send].
    In both cases the requests follow the message list in order, and each
    message goes through the send of its mode exactly when the loop has
    moved on past every message before it: the first message always, the
    others after sends that were accepted or answered with an invalid
    token.  The handling of the answers does not depend on the flag: when
    the provider answers both kinds of request alike and the preparation
    gives the same batch, the two runs end the same way and leave the same
    events except for the kind of send. *)
Theorem sendFcm_dry_run rcpt config :
  (DryRun config = true ->
   (exists n,
      calls (run (sendFcm rcpt config)) =
      map CSendDryRun (take n (fst (PrepareNotifications rcpt config)))) /\
   (forall j m,
      fst (PrepareNotifications rcpt config) !! j = Some m ->
      calls (run (sendFcm rcpt config)) !! j = Some (CSendDryRun m) <->
      forall k m', (k < j)%nat ->
        fst (PrepareNotifications rcpt config) !! k = Some m' ->
        goesOn config (snd (PrepareNotifications rcpt config)) k k m')) /\
  (DryRun config = false ->
   (exists n,
      calls (run (sendFcm rcpt config)) =
      map CSend (take n (fst (PrepareNotifications rcpt config)))) /\
   (forall j m,
      fst (PrepareNotifications rcpt config) !! j = Some m ->
      calls (run (sendFcm rcpt config)) !! j = Some (CSend m) <->
      forall k m', (k < j)%nat ->
        fst (PrepareNotifications rcpt config) !! k = Some m' ->
        goesOn config (snd (PrepareNotifications rcpt config)) k k m')) /\
  (forall config',
     DryRun config = true ->
     DryRun config' = false ->
     PrepareNotifications rcpt config = PrepareNotifications rcpt config' ->
     (forall k m, SendDryRun fcm k m = Send fcm k m) ->
     outcome (sendFcm rcpt config) = outcome (sendFcm rcpt config') /\
     run (sendFcm rcpt config) = map viaDryRun (run (sendFcm rcpt config'))).
Proof.
  split; [|split].
  - intros Hd. unfold run, sendFcm.
    destruct (PrepareNotifications rcpt config) as [messages uids].
    cbn [fst snd]. split.
    + destruct (sendFrom_calls_prefix config uids messages 0 []) as [n Hn].
      exists n. rewrite Hn. cbn [calls omap app].
      apply map_ext. intros m. unfold sendCall. now rewrite Hd.
    + intros j m Hj.
      pose proof (sendFrom_sent_iff config uids messages 0 [] j m Hj) as Hiff.
      unfold sendCall in Hiff. rewrite Hd in Hiff. exact Hiff.
  - intros Hd. unfold run, sendFcm.
    destruct (PrepareNotifications rcpt config) as [messages uids].
    cbn [fst snd]. split.
    + destruct (sendFrom_calls_prefix config uids messages 0 []) as [n Hn].
      exists n. rewrite Hn. cbn [calls omap app].
      apply map_ext. intros m. unfold sendCall. now rewrite Hd.
    + intros j m Hj.
      pose proof (sendFrom_sent_iff config uids messages 0 [] j m Hj) as Hiff.
      unfold sendCall in Hiff. rewrite Hd in Hiff. exact Hiff.
  - intros config' Hd Hr Hprep Hsame. unfold outcome, run, sendFcm.
    rewrite <- Hprep.
    destruct (PrepareNotifications rcpt config) as [messages uids].
    change (@nil Event) with (map viaDryRun []) at 1 3.
    now rewrite (sendFrom_dry_twin config config' uids Hd Hr Hsame).
Qed.

(** ** Partial failures *)

Lemma index_in_range {A} (l : list A) (i : Z) (tr : Trace) :
  0 <= i < len l -> exists a, index l i tr = (Returned a, tr).
Proof.
  intros Hi. rewrite <- (Z2Nat.id i) by lia. rewrite index_of_nat.
  destruct (lookup_lt_is_Some_2 l (Z.to_nat i)) as [a ->]; [|now exists a].
  unfold len in Hi. lia.
Qed.

Lemma index_out_of_range {A} (l : list A) (i : Z) (tr : Trace) :
  ~ (0 <= i < len l) -> index l i tr = (Panicked, tr).
Proof.
  intros Hi. unfold index.
  destruct (0 <=? i) eqn:H0; [|reflexivity].
  destruct (i <? len l) eqn:H1; [|reflexivity].
  apply Z.leb_le in H0. apply Z.ltb_lt in H1. lia.
Qed.

(** The inspection adds warnings to the trace and nothing else. *)
Lemma logSubErrors_warns uid devices errs :
  forall tr, exists ws,
    snd (logSubErrors uid devices errs tr) = tr ++ map (Log Warn) ws.
Proof.
  induction errs as [|errinfo rest IH]; intros tr.
  - exists []. cbn. now rewrite app_nil_r.
  - cbn [logSubErrors]. unfold bind at 1.
    destruct (Z_le_dec 0 (Index errinfo)) as [H0|H0];
      [destruct (Z_lt_dec (Index errinfo) (len devices)) as [H1|H1]|].
    + destruct (index_in_range devices (Index errinfo) tr) as [d ->]; [lia|].
      unfold bind, logWarn, emit.
      destruct (IH (tr ++ [Log Warn [AStr "fcm sub/unsub error";
                                     AStr (Reason errinfo); AUid uid; AStr d]]))
        as [ws Hws].
      eexists (_ :: ws). rewrite Hws, <- app_assoc. reflexivity.
    + rewrite index_out_of_range by lia. exists []. cbn. now rewrite app_nil_r.
    + rewrite index_out_of_range by lia. exists []. cbn. now rewrite app_nil_r.
Qed.

(** It returns exactly when every index points into the device list. *)
Lemma logSubErrors_returns uid devices errs :
  forall tr,
    fst (logSubErrors uid devices errs tr) = Returned tt <->
    Forall (fun errinfo => 0 <= Index errinfo < len devices) errs.
Proof.
  induction errs as [|errinfo rest IH]; intros tr.
  - cbn. split; [constructor|reflexivity].
  - cbn [logSubErrors]. unfold bind at 1.
    destruct (Z_le_dec 0 (Index errinfo)) as [H0|H0];
      [destruct (Z_lt_dec (Index errinfo) (len devices)) as [H1|H1]|].
    + destruct (index_in_range devices (Index errinfo) tr) as [d ->]; [lia|].
      unfold bind, logWarn, emit. rewrite IH. split.
      * intros Hrest. constructor; [lia|exact Hrest].
      * intros Hall. now inversion Hall.
    + rewrite index_out_of_range by lia. cbn [fst]. split; [discriminate|].
      intros Hall. inversion Hall; subst. lia.
    + rewrite index_out_of_range by lia. cbn [fst]. split; [discriminate|].
      intros Hall. inversion Hall; subst. lia.
Qed.

Lemma handleSubErrors_warns resp uid devices tr :
  exists ws, snd (handleSubErrors resp uid devices tr) = tr ++ map (Log Warn) ws.
Proof.
  unfold handleSubErrors. destruct (FailureCount resp <=? 0).
  - exists []. cbn. now rewrite app_nil_r.
  - apply logSubErrors_warns.
Qed.

Lemma handleSubErrors_aligned resp uid devices tr :
  aligned devices resp ->
  fst (handleSubErrors resp uid devices tr) = Returned tt.
Proof.
  intros Ha. unfold handleSubErrors. destruct (FailureCount resp <=? 0).
  - reflexivity.
  - now apply logSubErrors_returns.
Qed.

(** Without the guard on [FailureCount] in the way: the inspection returns
    exactly when it is skipped or every index points into the list. *)
Lemma handleSubErrors_returns resp uid devices tr :
  fst (handleSubErrors resp uid devices tr) = Returned tt <->
  FailureCount resp <= 0 \/ aligned devices resp.
Proof.
  unfold handleSubErrors, aligned.
  destruct (FailureCount resp <=? 0) eqn:Hf.
  - apply Z.leb_le in Hf. split; [now left|reflexivity].
  - apply Z.leb_gt in Hf. rewrite logSubErrors_returns.
    split; [now right|]. intros [Hle|Ha]; [lia|exact Ha].
Qed.

Lemma calls_of_warnings (ws : list (list LogArg)) : calls (map (Log Warn) ws) = [].
Proof. now induction ws. Qed.

Lemma deletes_of_warnings (ws : list (list LogArg)) :
  deletes (map (Log Warn) ws) = [].
Proof. now induction ws. Qed.

(** C9. [handleSubErrors] reads [devices[errinfo.Index]] for every entry of
    a response that reports failures, with no check of the index: the
    inspection returns exactly when every reported index points into the
    device list handed to the call, and panics otherwise.  For the
    one-element list of a fixed-device request this means that every
    reported index is 0. *)
Theorem handleSubErrors_index_safety resp uid devices tr :
  0 < FailureCount resp ->
  (fst (handleSubErrors resp uid devices tr) = Returned tt <->
   aligned devices resp) /\
  (fst (handleSubErrors resp uid devices tr) = Panicked <->
   Exists (fun errinfo => ~ (0 <= Index errinfo < len devices)) (Errors resp)) /\
  (forall device,
     devices = [device] ->
     (fst (handleSubErrors resp uid devices tr) = Returned tt <->
      Forall (fun errinfo => Index errinfo = 0) (Errors resp))).
Proof.
  intros Hfail. unfold handleSubErrors, aligned.
  replace (FailureCount resp <=? 0) with false
    by (symmetry; apply Z.leb_gt; lia).
  pose proof (logSubErrors_returns uid devices (Errors resp) tr) as Hret.
  split; [exact Hret|]. split.
  - destruct (fst (logSubErrors uid devices (Errors resp) tr)) as [[]|].
    + split; [discriminate|]. intros Hex. exfalso.
      apply Exists_Forall_neg in Hex; [|intros; lia].
      apply Hex, Hret. reflexivity.
    + split; [|reflexivity]. intros _.
      apply neg_Forall_Exists_neg.
      * intros errinfo. destruct (Z_le_dec 0 (Index errinfo));
          destruct (Z_lt_dec (Index errinfo) (len devices));
          [left|right|right|right]; lia.
      * intros Hall. apply Hret in Hall. discriminate.
  - intros device ->. rewrite Hret. apply Forall_iff.
    intros errinfo. unfold len. cbn. lia.
Qed.

(** ** Subscriptions with a fixed channel *)

Lemma topicCall_step req devices channel tr :
  topicCall req devices channel tr =
  (Returned (topicReply req (length (calls tr)) devices channel),
   tr ++ [Call (topicRequest req devices channel)]).
Proof. unfold topicCall, topicReply, topicRequest. now destruct (Unsub req). Qed.

Lemma nonempty_eqb (s : string) : nonempty s = true -> String.eqb s "" = false.
Proof. unfold nonempty. now destruct (String.eqb s ""). Qed.

Lemma len_pos {A} (l : list A) : l <> [] -> 0 < len l.
Proof. destruct l; [congruence|]. unfold len. cbn [length]. lia. Qed.

(** One call with the device list, cut to [subBatchSize] with a warning when
    it is longer, and after it warnings only. *)
Lemma processSubscription_fixed_channel req devices :
  nonempty (Channel req) = true ->
  DevicesForUser (ReqUid req) = devices ->
  devices <> [] ->
  exists ws,
    run (processSubscription req) =
    (if len devices >? subBatchSize then [Log Warn (tooManyDevices req)] else [])
      ++ Call (topicRequest req
                 (if len devices >? subBatchSize
                  then take (Z.to_nat subBatchSize) devices else devices)
                 (Channel req))
      :: map (Log Warn) ws.
Proof.
  intros Hch Hdev Hne. pose proof (len_pos devices Hne) as Hpos.
  unfold run, processSubscription, resolve. rewrite Hch, Hdev.
  unfold dispatch. rewrite (nonempty_eqb _ Hch), Hch.
  replace (len devices =? 0) with false by (symmetry; apply Z.eqb_neq; lia).
  rewrite andb_false_r. cbn [andb orb].
  assert (Htail : forall sent tr,
    0 < len sent ->
    exists ws,
      snd ((r <- topicCall req sent (Channel req) ;;
            match r with
            | TopicFailed err => logSubFailed req err
            | TopicOk resp => handleSubErrors resp (ReqUid req) sent
            end) tr) =
      tr ++ Call (topicRequest req sent (Channel req)) :: map (Log Warn) ws).
  { intros sent tr _. unfold bind. rewrite topicCall_step.
    destruct (topicReply req _ sent (Channel req)) as [resp|err].
    - destruct (handleSubErrors_warns resp (ReqUid req) sent
                 (tr ++ [Call (topicRequest req sent (Channel req))]))
        as [ws Hws].
      exists ws. rewrite Hws, <- app_assoc. reflexivity.
    - exists [[AStr "fcm: sub or upsub failed"; ABool (Unsub req);
               AStr (ErrorText err)]].
      unfold logSubFailed, logWarn, emit. cbn [snd map].
      rewrite <- app_assoc. reflexivity. }
  destruct (len devices >? subBatchSize) eqn:Hbig.
  - unfold bind at 1. unfold bind at 1. unfold logWarn, emit, ret. cbn [app].
    assert (Hsent : 0 < len (take (Z.to_nat subBatchSize) devices)).
    { unfold len. rewrite length_take. apply Z.gtb_lt in Hbig.
      unfold len, subBatchSize in *. lia. }
    replace (len (take (Z.to_nat subBatchSize) devices) >? 0) with true
      by (symmetry; apply Z.gtb_lt; lia).
    exact (Htail _ [Log Warn (tooManyDevices req)] Hsent).
  - unfold bind at 1. unfold ret.
    replace (len devices >? 0) with true by (symmetry; apply Z.gtb_lt; lia).
    exact (Htail _ [] Hpos).
Qed.

(** C6. A request with a fixed channel whose user has [N] devices,
    [0 < N <= 1000], makes exactly one provider call: the topic call picked
    by the unsubscribe flag, with all [N] tokens, against that channel. *)
Theorem processSubscription_one_bulk_call req devices :
  nonempty (Channel req) = true ->
  DevicesForUser (ReqUid req) = devices ->
  devices <> [] ->
  len devices <= subBatchSize ->
  calls (run (processSubscription req)) =
    [if Unsub req then CUnsubscribeFromTopic devices (Channel req)
     else CSubscribeToTopic devices (Channel req)].
Proof.
  intros Hch Hdev Hne Hmax.
  destruct (processSubscription_fixed_channel req devices Hch Hdev Hne)
    as [ws ->].
  replace (len devices >? subBatchSize) with false
    by (symmetry; rewrite Z.gtb_ltb; apply Z.ltb_ge; lia).
  cbn [app]. rewrite calls_cons_call, calls_of_warnings.
  unfold topicRequest. now destruct (Unsub req).
Qed.

(** C5. A request with a fixed channel whose user has more than 1000
    devices is not turned down: a warning is logged, then exactly one
    provider call is made, with the first 1000 tokens of the device list. *)
Theorem processSubscription_truncates req devices :
  nonempty (Channel req) = true ->
  DevicesForUser (ReqUid req) = devices ->
  len devices > subBatchSize ->
  calls (run (processSubscription req)) =
    [topicRequest req (take 1000 devices) (Channel req)] /\
  length (take 1000 devices) = 1000%nat /\
  In (Warn, tooManyDevices req) (logged (run (processSubscription req))) /\
  exists rest,
    run (processSubscription req) =
    Log Warn (tooManyDevices req)
      :: Call (topicRequest req (take 1000 devices) (Channel req)) :: rest.
Proof.
  intros Hch Hdev Hbig.
  assert (Hne : devices <> []).
  { intros ->. unfold len, subBatchSize in Hbig. cbn in Hbig. lia. }
  destruct (processSubscription_fixed_channel req devices Hch Hdev Hne)
    as [ws ->].
  replace (len devices >? subBatchSize) with true
    by (symmetry; apply Z.gtb_lt; lia).
  change (Z.to_nat subBatchSize) with 1000%nat.
  split; [|split; [|split]].
  - cbn [app]. now rewrite calls_cons_log, calls_cons_call, calls_of_warnings.
  - rewrite length_take. unfold len, subBatchSize in Hbig. lia.
  - left. reflexivity.
  - eexists. reflexivity.
Qed.

(** ** Subscriptions with a fixed device *)

Lemma handleSubErrors_result resp uid devices tr :
  exists o ws,
    handleSubErrors resp uid devices tr = (o, tr ++ map (Log Warn) ws).
Proof.
  destruct (handleSubErrors_warns resp uid devices tr) as [ws Hws].
  destruct (handleSubErrors resp uid devices tr) as [o tr'].
  exists o, ws. cbn [snd] in Hws. now rewrite Hws.
Qed.

Lemma subscribeEach_failed req devices c rest tr e :
  topicReply req (length (calls tr)) devices c = TopicFailed e ->
  subscribeEach req devices (c :: rest) tr =
  (Returned tt,
   tr ++ [Call (topicRequest req devices c); Log Warn (subFailed req e)]).
Proof.
  intros Hr. cbn [subscribeEach]. unfold bind at 1.
  rewrite topicCall_step, Hr. unfold logSubFailed, logWarn, emit.
  now rewrite <- app_assoc.
Qed.

(** After a call that went through, the loop goes on from a trace that
    holds the call and the warnings of the inspection, unless the
    inspection panics. *)
Lemma subscribeEach_done req devices c rest tr resp :
  topicReply req (length (calls tr)) devices c = TopicOk resp ->
  exists o ws,
    handleSubErrors resp (ReqUid req) devices
      (tr ++ [Call (topicRequest req devices c)]) =
    (o, tr ++ Call (topicRequest req devices c) :: map (Log Warn) ws) /\
    (aligned devices resp -> o = Returned tt) /\
    subscribeEach req devices (c :: rest) tr =
    match o with
    | Returned _ =>
      subscribeEach req devices rest
        (tr ++ Call (topicRequest req devices c) :: map (Log Warn) ws)
    | Panicked =>
      (Panicked, tr ++ Call (topicRequest req devices c) :: map (Log Warn) ws)
    end.
Proof.
  intros Hr.
  destruct (handleSubErrors_result resp (ReqUid req) devices
              (tr ++ [Call (topicRequest req devices c)])) as (o & ws & Hh).
  assert (Hh' : handleSubErrors resp (ReqUid req) devices
                  (tr ++ [Call (topicRequest req devices c)]) =
                (o, tr ++ Call (topicRequest req devices c) :: map (Log Warn) ws))
    by (rewrite Hh, <- app_assoc; reflexivity).
  exists o, ws. split; [exact Hh'|]. split.
  - intros Ha.
    pose proof (handleSubErrors_aligned resp (ReqUid req) devices
                  (tr ++ [Call (topicRequest req devices c)]) Ha) as Hret.
    now rewrite Hh' in Hret.
  - cbn [subscribeEach]. unfold bind at 1. rewrite topicCall_step, Hr.
    unfold bind. rewrite Hh'. now destruct o.
Qed.

Lemma calls_after_call tr c ws :
  calls (tr ++ Call c :: map (Log Warn) ws) = calls tr ++ [c].
Proof. now rewrite calls_app, calls_cons_call, calls_of_warnings. Qed.

(** Whatever the provider answers, the calls are a prefix of the channel
    list, in list order, each with the same device list. *)
Lemma subscribeEach_calls_prefix req devices channels :
  forall tr,
  exists n,
    calls (snd (subscribeEach req devices channels tr)) =
    calls tr ++ map (topicRequest req devices) (take n channels).
Proof.
  induction channels as [|c rest IH]; intros tr.
  - exists 0%nat. cbn. now rewrite app_nil_r.
  - destruct (topicReply req (length (calls tr)) devices c) as [resp|e] eqn:Hr.
    + destruct (subscribeEach_done req devices c rest tr resp Hr)
        as (o & ws & _ & _ & ->).
      destruct o as [[]|].
      * destruct (IH (tr ++ Call (topicRequest req devices c)
                         :: map (Log Warn) ws)) as [n Hn].
        exists (S n). rewrite Hn, calls_after_call, <- app_assoc. reflexivity.
      * exists 1%nat. cbn [snd]. now rewrite calls_after_call.
    + rewrite (subscribeEach_failed req devices c rest tr e Hr).
      exists 1%nat. cbn [snd]. now rewrite calls_app.
Qed.

(** Channels whose calls go through with aligned responses are handled one
    after the other. *)
Lemma subscribeEach_app_done req devices pre rest :
  forall tr,
    (forall j c, pre !! j = Some c ->
       exists resp,
         topicReply req (length (calls tr) + j) devices c = TopicOk resp /\
         aligned devices resp) ->
    exists mid,
      subscribeEach req devices (pre ++ rest) tr =
      subscribeEach req devices rest (tr ++ mid) /\
      calls mid = map (topicRequest req devices) pre.
Proof.
  induction pre as [|c pre IH]; intros tr Hok.
  - exists []. now rewrite app_nil_r.
  - destruct (Hok 0%nat c eq_refl) as (resp & Hr & Ha).
    rewrite Nat.add_0_r in Hr. cbn [app].
    destruct (subscribeEach_done req devices c (pre ++ rest) tr resp Hr)
      as (o & ws & _ & Hret & ->).
    rewrite (Hret Ha).
    destruct (IH (tr ++ Call (topicRequest req devices c) :: map (Log Warn) ws))
      as (mid & Heq & Hmid).
    + intros j c' Hj. rewrite calls_after_call, length_app. cbn [length].
      replace (length (calls tr) + 1 + j)%nat
        with (length (calls tr) + S j)%nat by lia.
      now apply Hok.
    + exists (Call (topicRequest req devices c) :: map (Log Warn) ws ++ mid).
      split.
      * rewrite Heq, <- app_assoc. reflexivity.
      * rewrite calls_cons_call, calls_app, calls_of_warnings, Hmid.
        reflexivity.
Qed.

(** When the call for channel [K] is made and fails outright, the loop is
    left: that call and its warning are the last events of the task. *)
Lemma subscribeEach_breaks_at req devices channels :
  forall tr K c e,
    channels !! K = Some c ->
    topicReply req (length (calls tr) + K) devices c = TopicFailed e ->
    (length (calls tr) + K <
       length (calls (snd (subscribeEach req devices channels tr))))%nat ->
    exists pre,
      subscribeEach req devices channels tr =
      (Returned tt,
       tr ++ pre ++ [Call (topicRequest req devices c);
                     Log Warn (subFailed req e)]) /\
      calls pre = map (topicRequest req devices) (take K channels).
Proof.
  induction channels as [|c0 rest IH]; intros tr K c e HK Hr Hmade;
    [discriminate|].
  destruct K as [|K].
  - injection HK as ->. rewrite Nat.add_0_r in Hr.
    exists []. now rewrite (subscribeEach_failed req devices c rest tr e Hr).
  - cbn in HK.
    destruct (topicReply req (length (calls tr)) devices c0)
      as [resp|e0] eqn:Hr0.
    + destruct (subscribeEach_done req devices c0 rest tr resp Hr0)
        as (o & ws & _ & _ & Heq).
      rewrite Heq in *. clear Heq.
      destruct o as [[]|].
      * destruct (IH (tr ++ Call (topicRequest req devices c0)
                         :: map (Log Warn) ws) K c e HK) as (pre & Heq & Hpre).
        -- rewrite calls_after_call, length_app. cbn [length].
           now replace (length (calls tr) + 1 + K)%nat
             with (length (calls tr) + S K)%nat by lia.
        -- rewrite calls_after_call, length_app. cbn [length]. lia.
        -- exists (Call (topicRequest req devices c0)
                     :: map (Log Warn) ws ++ pre).
           split.
           ++ rewrite Heq, <- !app_assoc. cbn [app].
              now rewrite <- !app_assoc.
           ++ rewrite calls_cons_call, calls_app, calls_of_warnings, Hpre.
              reflexivity.
      * exfalso. cbn [snd] in Hmade.
        rewrite calls_after_call, length_app in Hmade. cbn in Hmade. lia.
    + exfalso.
      rewrite (subscribeEach_failed req devices c0 rest tr e0 Hr0) in Hmade.
      cbn [snd] in Hmade. rewrite calls_app, length_app in Hmade.
      cbn in Hmade. lia.
Qed.

Lemma processSubscription_loops req channels :
  nonempty (Channel req) = false ->
  nonempty (DeviceID req) = true ->
  ChannelsForUser (ReqUid req) = channels ->
  channels <> [] ->
  forall tr,
    processSubscription req tr = subscribeEach req [DeviceID req] channels tr.
Proof.
  intros Hch Hdev Hchs Hne tr. pose proof (len_pos channels Hne) as Hpos.
  unfold processSubscription, resolve. rewrite Hch, Hdev, Hchs.
  unfold dispatch. rewrite (nonempty_eqb _ Hdev), Hdev.
  replace (len channels =? 0) with false by (symmetry; apply Z.eqb_neq; lia).
  replace (len channels >? 0) with true by (symmetry; apply Z.gtb_lt; lia).
  reflexivity.
Qed.

(** C4. A request with a fixed device whose user has the channels
    [c1..cM], [M >= 1], makes its provider calls in the order of the
    channel list, one per channel, each with the device list [[deviceID]].
    When every call goes through (with a response aligned with that list)
    all [M] calls are made.  When the call for a channel is made and fails
    outright, it is the last one: the channels after it are never tried. *)
Theorem processSubscription_fixed_device req channels :
  nonempty (Channel req) = false ->
  nonempty (DeviceID req) = true ->
  ChannelsForUser (ReqUid req) = channels ->
  channels <> [] ->
  (exists n,
     calls (run (processSubscription req)) =
     map (topicRequest req [DeviceID req]) (take n channels)) /\
  ((forall k c, channels !! k = Some c ->
      exists resp,
        topicReply req k [DeviceID req] c = TopicOk resp /\
        aligned [DeviceID req] resp) ->
   outcome (processSubscription req) = Returned tt /\
   calls (run (processSubscription req)) =
   map (topicRequest req [DeviceID req]) channels) /\
  (forall K c e,
     channels !! K = Some c ->
     (K < length (calls (run (processSubscription req))))%nat ->
     topicReply req K [DeviceID req] c = TopicFailed e ->
     outcome (processSubscription req) = Returned tt /\
     calls (run (processSubscription req)) =
     map (topicRequest req [DeviceID req]) (take (S K) channels) /\
     length (calls (run (processSubscription req))) = S K).
Proof.
  intros Hch Hdev Hchs Hne.
  pose proof (processSubscription_loops req channels Hch Hdev Hchs Hne [])
    as Hloop.
  unfold outcome, run. rewrite Hloop. split; [|split].
  - destruct (subscribeEach_calls_prefix req [DeviceID req] channels [])
      as [n Hn].
    exists n. exact Hn.
  - intros Hok.
    destruct (subscribeEach_app_done req [DeviceID req] channels [] [])
      as (mid & Heq & Hmid).
    + intros j c Hj. now apply Hok.
    + rewrite app_nil_r in Heq. rewrite Heq. cbn [subscribeEach ret fst snd app].
      split; [reflexivity|exact Hmid].
  - intros K c e HK Hmade Hr.
    destruct (subscribeEach_breaks_at req [DeviceID req] channels [] K c e HK)
      as (pre & Heq & Hpre).
    + exact Hr.
    + exact Hmade.
    + rewrite Heq. cbn [fst snd app].
      assert (Hcalls :
        calls (pre ++ [Call (topicRequest req [DeviceID req] c);
                       Log Warn (subFailed req e)]) =
        map (topicRequest req [DeviceID req]) (take (S K) channels)).
      { rewrite calls_app, Hpre, (take_S_r channels K c HK), map_app.
        reflexivity. }
      split; [reflexivity|]. split; [exact Hcalls|].
      rewrite Hcalls, length_map, length_take_le; [reflexivity|].
      apply lookup_lt_Some in HK. lia.
Qed.

(** ** Requests that resolve to nothing *)

(** Only the dimension opposite to the fixed one is looked up. *)
Lemma resolve_one_dimension req channel devices device channels :
  resolve req = (channel, devices, device, channels) ->
  devices = [] \/ channels = [].
Proof.
  unfold resolve.
  destruct (nonempty (Channel req)); [|destruct (nonempty (DeviceID req))];
    intros [= <- <- <- <-]; auto.
Qed.

Lemma processSubscription_nothing_resolved req :
  (let '(_, devices, _, channels) := resolve req in
   devices = [] /\ channels = []) ->
  processSubscription req [] = (Returned tt, []).
Proof.
  unfold processSubscription, resolve.
  destruct (nonempty (Channel req)) eqn:Hch;
    [|destruct (nonempty (DeviceID req)) eqn:Hdev].
  - intros [-> _]. unfold dispatch. now rewrite (nonempty_eqb _ Hch).
  - intros [_ ->]. unfold dispatch. now rewrite (nonempty_eqb _ Hdev).
  - intros _. reflexivity.
Qed.

(** C1, as the code has it. A request that resolves to a non-empty device
    list and a non-empty channel list at once, or to an empty list on both
    sides, makes no provider call.  With a fixed channel or a fixed device
    whose list resolves empty the request is a silent no-op: nothing is
    logged. *)
Theorem processSubscription_unresolved req channel devices device channels :
  resolve req = (channel, devices, device, channels) ->
  (devices <> [] /\ channels <> []) \/ (devices = [] /\ channels = []) ->
  outcome (processSubscription req) = Returned tt /\
  calls (run (processSubscription req)) = [] /\
  (nonempty (Channel req) = true \/ nonempty (DeviceID req) = true ->
   run (processSubscription req) = []).
Proof.
  intros Hres Hcase.
  assert (Hrun : processSubscription req [] = (Returned tt, [])).
  { apply processSubscription_nothing_resolved. rewrite Hres.
    destruct Hcase as [[Hd Hc]|Hboth]; [|exact Hboth].
    destruct (resolve_one_dimension _ _ _ _ _ Hres); congruence. }
  unfold outcome, run. rewrite Hrun. repeat split.
Qed.

(** The error line at the end of [processSubscription] is never printed. *)
Lemma warnings_quiet (ws : list (list LogArg)) : Forall quiet (map (Log Warn) ws).
Proof. induction ws; constructor; [exact I|assumption]. Qed.

Lemma subscribeEach_quiet req devices channels :
  forall tr,
    Forall quiet tr -> Forall quiet (snd (subscribeEach req devices channels tr)).
Proof.
  induction channels as [|c rest IH]; intros tr Htr; [exact Htr|].
  destruct (topicReply req (length (calls tr)) devices c) as [resp|e] eqn:Hr.
  - destruct (subscribeEach_done req devices c rest tr resp Hr)
      as (o & ws & _ & _ & ->).
    assert (Hnext : Forall quiet (tr ++ Call (topicRequest req devices c)
                                     :: map (Log Warn) ws)).
    { apply Forall_app. split; [exact Htr|]. constructor; [exact I|apply warnings_quiet]. }
    destruct o as [[]|]; [now apply IH|exact Hnext].
  - rewrite (subscribeEach_failed req devices c rest tr e Hr). cbn [snd].
    apply Forall_app. split; [exact Htr|]. repeat constructor.
Qed.

Lemma processSubscription_quiet req : Forall quiet (run (processSubscription req)).
Proof.
  destruct (nonempty (Channel req)) eqn:Hch.
  - destruct (DevicesForUser (ReqUid req)) as [|d ds] eqn:Hds.
    + unfold run. rewrite processSubscription_nothing_resolved; [constructor|].
      unfold resolve. now rewrite Hch, Hds.
    + destruct (processSubscription_fixed_channel req (d :: ds) Hch Hds)
        as [ws ->]; [discriminate|].
      apply Forall_app. split.
      * destruct (len (d :: ds) >? subBatchSize); repeat constructor.
      * constructor; [exact I|apply warnings_quiet].
  - destruct (nonempty (DeviceID req)) eqn:Hdev.
    + destruct (ChannelsForUser (ReqUid req)) as [|c cs] eqn:Hcs.
      * unfold run. rewrite processSubscription_nothing_resolved; [constructor|].
        unfold resolve. now rewrite Hch, Hdev, Hcs.
      * unfold run.
        rewrite (processSubscription_loops req (c :: cs) Hch Hdev Hcs)
          by discriminate.
        apply subscribeEach_quiet. constructor.
    + unfold run. rewrite processSubscription_nothing_resolved; [constructor|].
      unfold resolve. now rewrite Hch, Hdev.
Qed.

(** ** More on deliveries *)

Lemma sendFrom_returns config uids ms :
  forall i tr,
    (i + length ms <= length uids)%nat ->
    fst (sendFrom config uids i ms tr) = Returned tt.
Proof.
  induction ms as [|m rest IH]; intros i tr Hlen; [reflexivity|].
  cbn [length] in Hlen.
  destruct (sendReply config (length (calls tr)) m) as [e|] eqn:Hr.
  - destruct (classify e) eqn:Hc.
    1,2,4: now rewrite (sendFrom_stopped config uids i m rest tr e Hr)
      by congruence.
    destruct (lookup_lt_is_Some_2 uids i) as [u Hu]; [lia|].
    rewrite (sendFrom_dropped config uids i m rest tr e u Hr Hc Hu).
    apply IH. lia.
  - rewrite (sendFrom_accepted config uids i m rest tr Hr). apply IH. lia.
Qed.

(** X1. With an owner for every prepared message the delivery task always
    returns: no answer of the provider or of the device store makes it
    panic. *)
Theorem sendFcm_never_panics rcpt config messages uids :
  PrepareNotifications rcpt config = (messages, uids) ->
  (length messages <= length uids)%nat ->
  outcome (sendFcm rcpt config) = Returned tt.
Proof.
  intros Hprep Hlen. unfold outcome, sendFcm. rewrite Hprep.
  now apply sendFrom_returns.
Qed.

(** X2. A message whose token the provider reports as unregistered but
    that has no entry in the owner list makes the task panic at [uids[i]]:
    the call for message [i] is the last one and nothing is deleted. *)
Theorem sendFcm_missing_owner rcpt config messages uids i m e :
  PrepareNotifications rcpt config = (messages, uids) ->
  messages !! i = Some m ->
  uids !! i = None ->
  (forall k m', (k < i)%nat -> messages !! k = Some m' ->
                sendReply config k m' = None) ->
  sendReply config i m = Some e ->
  classify e = InvalidToken ->
  outcome (sendFcm rcpt config) = Panicked /\
  calls (run (sendFcm rcpt config)) = map (sendCall config) (take (S i) messages) /\
  deletes (run (sendFcm rcpt config)) = [].
Proof.
  intros Hprep Hm Hu Hok Hr Hc.
  assert (Hi : (i < length messages)%nat) by (eapply lookup_lt_Some; eauto).
  assert (Hrun : sendFrom config uids 0 messages [] =
    (Panicked,
     map Call (map (sendCall config) (take i messages))
       ++ [Call (sendCall config m);
           Log Warn [AStr "fcm invalid token:"; AStr (ErrorText e)]])).
  { rewrite <- (take_drop_middle messages i m Hm) at 1.
    rewrite sendFrom_app_accepted.
    2:{ intros j m' Hj. change (length (calls [])) with 0%nat. cbn [Nat.add].
        apply lookup_take_Some in Hj as [Hj Hlt]. now apply Hok. }
    cbn [app Nat.add]. rewrite length_take_le by lia.
    apply sendFrom_no_owner; [|exact Hc|exact Hu].
    now rewrite calls_of_calls, !length_map, length_take_le by lia. }
  unfold outcome, run, sendFcm. rewrite Hprep, Hrun. cbn [fst snd].
  split; [reflexivity|].
  rewrite calls_app, deletes_app, calls_of_calls, deletes_of_calls.
  rewrite (take_S_r messages i m Hm), map_app. split; reflexivity.
Qed.

Lemma sendFrom_deletes_sound config uids ms :
  forall i tr u t,
    In (u, t) (deletes (snd (sendFrom config uids i ms tr))) ->
    In (u, t) (deletes tr) \/
    exists j m e,
      ms !! j = Some m /\ uids !! (i + j)%nat = Some u /\ t = Token m /\
      sendReply config (length (calls tr) + j) m = Some e /\
      classify e = InvalidToken.
Proof.
  induction ms as [|m rest IH]; intros i tr u t Hin; [now left|].
  destruct (sendReply config (length (calls tr)) m) as [e|] eqn:Hr.
  - destruct (classify e) eqn:Hc.
    1,2,4: rewrite (sendFrom_stopped config uids i m rest tr e Hr) in Hin
        by congruence;
      cbn [snd] in Hin; rewrite deletes_app in Hin; cbn in Hin;
      rewrite app_nil_r in Hin; now left.
    destruct (uids !! i) as [u0|] eqn:Hu.
    + rewrite (sendFrom_dropped config uids i m rest tr e u0 Hr Hc Hu) in Hin.
      apply IH in Hin as [Hin|(j & m' & e' & Hj & Huj & Ht & Hrj & Hcj)].
      * rewrite tokenDropped_deletes in Hin.
        apply in_app_iff in Hin as [Hin|[[= <- <-]|[]]]; [now left|].
        right. exists 0%nat, m, e.
        rewrite !Nat.add_0_r. repeat split; assumption.
      * right. exists (S j), m', e'.
        rewrite tokenDropped_calls, length_app in Hrj. cbn [length] in Hrj.
        replace (i + S j)%nat with (S i + j)%nat by lia.
        replace (length (calls tr) + S j)%nat
          with (length (calls tr) + 1 + j)%nat by lia.
        repeat split; assumption.
    + rewrite (sendFrom_no_owner config uids i m rest tr e Hr Hc Hu) in Hin.
      cbn [snd] in Hin. rewrite deletes_app in Hin. cbn in Hin.
      rewrite app_nil_r in Hin. now left.
  - rewrite (sendFrom_accepted config uids i m rest tr Hr) in Hin.
    apply IH in Hin as [Hin|(j & m' & e' & Hj & Huj & Ht & Hrj & Hcj)].
    + rewrite deletes_app in Hin. cbn in Hin. rewrite app_nil_r in Hin.
      now left.
    + right. exists (S j), m', e'.
      rewrite calls_snoc_call in Hrj.
      replace (i + S j)%nat with (S i + j)%nat by lia.
      replace (length (calls tr) + S j)%nat
        with (S (length (calls tr)) + j)%nat by lia.
      repeat split; assumption.
Qed.

(** X3. A delivery deletes a device only on the provider's word: every
    delete it issues is for the owner and the token of a prepared message
    whose send the provider answered with an invalid-token error. *)
Theorem sendFcm_deletes_only_unregistered rcpt config messages uids u t :
  PrepareNotifications rcpt config = (messages, uids) ->
  In (u, t) (deletes (run (sendFcm rcpt config))) ->
  exists i m e,
    messages !! i = Some m /\ uids !! i = Some u /\ t = Token m /\
    sendReply config i m = Some e /\ classify e = InvalidToken.
Proof.
  intros Hprep Hin. unfold run, sendFcm in Hin. rewrite Hprep in Hin.
  apply sendFrom_deletes_sound in Hin as [[]|Hex]. exact Hex.
Qed.

(** ** More on partial failures *)

Lemma index_value (l : list string) (i : Z) (tr : Trace) :
  0 <= i < len l ->
  index l i tr = (Returned (default "" (l !! Z.to_nat i)), tr).
Proof.
  intros Hi. unfold index.
  replace (0 <=? i) with true by (symmetry; apply Z.leb_le; lia).
  replace (i <? len l) with true by (symmetry; apply Z.ltb_lt; lia).
  cbn [andb].
  destruct (lookup_lt_is_Some_2 l (Z.to_nat i)) as [a ->]; [|reflexivity].
  unfold len in Hi. lia.
Qed.

Lemma logSubErrors_lines uid devices errs :
  forall tr,
    Forall (fun errinfo => 0 <= Index errinfo < len devices) errs ->
    logSubErrors uid devices errs tr =
    (Returned tt, tr ++ map (subErrorLine uid devices) errs).
Proof.
  induction errs as [|errinfo rest IH]; intros tr Hall.
  - cbn. now rewrite app_nil_r.
  - inversion Hall as [|? ? Hhead Hrest]; subst.
    cbn [logSubErrors]. unfold bind at 1. rewrite index_value by exact Hhead.
    unfold bind, logWarn, emit. rewrite IH by exact Hrest.
    now rewrite <- app_assoc.
Qed.

(** X4. The inspection of an aligned response is informational only: it
    returns, and when the response reports failures it adds one warning per
    entry of [Errors], in order, with the reason, the user and the device
    token at the reported index; when [FailureCount] is not positive it
    adds nothing, whatever [Errors] holds. *)
Theorem handleSubErrors_reports resp uid devices tr :
  aligned devices resp ->
  handleSubErrors resp uid devices tr =
  (Returned tt,
   tr ++ if FailureCount resp <=? 0 then []
         else map (subErrorLine uid devices) (Errors resp)).
Proof.
  intros Ha. unfold handleSubErrors. destruct (FailureCount resp <=? 0).
  - unfold ret. now rewrite app_nil_r.
  - now apply logSubErrors_lines.
Qed.

(** ** What a subscription task never does *)

Lemma warnings_topicOnly (ws : list (list LogArg)) :
  Forall topicOnly (map (Log Warn) ws).
Proof. induction ws; constructor; [exact I|assumption]. Qed.

Lemma topicRequest_topicOnly req devices channel :
  topicOnly (Call (topicRequest req devices channel)).
Proof. unfold topicRequest. now destruct (Unsub req). Qed.

Lemma subscribeEach_topicOnly req devices channels :
  forall tr,
    Forall topicOnly tr ->
    Forall topicOnly (snd (subscribeEach req devices channels tr)).
Proof.
  induction channels as [|c rest IH]; intros tr Htr; [exact Htr|].
  destruct (topicReply req (length (calls tr)) devices c) as [resp|e] eqn:Hr.
  - destruct (subscribeEach_done req devices c rest tr resp Hr)
      as (o & ws & _ & _ & ->).
    assert (Hnext : Forall topicOnly (tr ++ Call (topicRequest req devices c)
                                         :: map (Log Warn) ws)).
    { apply Forall_app. split; [exact Htr|].
      constructor; [apply topicRequest_topicOnly|apply warnings_topicOnly]. }
    destruct o as [[]|]; [now apply IH|exact Hnext].
  - rewrite (subscribeEach_failed req devices c rest tr e Hr). cbn [snd].
    apply Forall_app. split; [exact Htr|].
    constructor; [apply topicRequest_topicOnly|]. now constructor.
Qed.

Lemma processSubscription_topicOnly req :
  Forall topicOnly (run (processSubscription req)).
Proof.
  destruct (nonempty (Channel req)) eqn:Hch.
  - destruct (DevicesForUser (ReqUid req)) as [|d ds] eqn:Hds.
    + unfold run. rewrite processSubscription_nothing_resolved; [constructor|].
      unfold resolve. now rewrite Hch, Hds.
    + destruct (processSubscription_fixed_channel req (d :: ds) Hch Hds)
        as [ws ->]; [discriminate|].
      apply Forall_app. split.
      * destruct (len (d :: ds) >? subBatchSize); repeat constructor.
      * constructor; [apply topicRequest_topicOnly|apply warnings_topicOnly].
  - destruct (nonempty (DeviceID req)) eqn:Hdev.
    + destruct (ChannelsForUser (ReqUid req)) as [|c cs] eqn:Hcs.
      * unfold run. rewrite processSubscription_nothing_resolved; [constructor|].
        unfold resolve. now rewrite Hch, Hdev, Hcs.
      * unfold run.
        rewrite (processSubscription_loops req (c :: cs) Hch Hdev Hcs)
          by discriminate.
        apply subscribeEach_topicOnly. constructor.
    + unfold run. rewrite processSubscription_nothing_resolved; [constructor|].
      unfold resolve. now rewrite Hch, Hdev.
Qed.

(** X5. A subscription task never touches the device store: whatever the
    provider reports, complete or partial failure, no delete is issued. *)
Theorem processSubscription_never_deletes req :
  deletes (run (processSubscription req)) = [].
Proof.
  pose proof (processSubscription_topicOnly req) as Hall.
  induction Hall as [|ev tr Hev _ IH]; [reflexivity|].
  destruct ev as [c|u t|lvl a]; [exact IH|destruct Hev|exact IH].
Qed.

(** X6. The error line that closes [processSubscription] (invalid
    combination of channels and devices) is unreachable: no request, with
    any lookup results and any provider, gets a line in the error log. *)
Theorem processSubscription_never_logs_error req args :
  ~ In (Log Err args) (run (processSubscription req)).
Proof.
  pose proof (processSubscription_topicOnly req) as Hall.
  induction Hall as [|ev tr Hev _ IH]; [intros []|].
  intros [->|Hin]; [exact Hev|exact (IH Hin)].
Qed.

(** X7. Every provider call of a subscription task is the topic call picked
    by the unsubscribe flag and carries at least one and at most 1000
    device tokens. *)
Theorem processSubscription_batch_limit req :
  Forall (fun c =>
            exists tokens topic,
              c = topicRequest req tokens topic /\
              (1 <= length tokens <= 1000)%nat)
         (calls (run (processSubscription req))).
Proof.
  destruct (nonempty (Channel req)) eqn:Hch.
  - destruct (DevicesForUser (ReqUid req)) as [|d ds] eqn:Hds.
    + unfold run. rewrite processSubscription_nothing_resolved; [constructor|].
      unfold resolve. now rewrite Hch, Hds.
    + destruct (processSubscription_fixed_channel req (d :: ds) Hch Hds)
        as [ws ->]; [discriminate|].
      destruct (len (d :: ds) >? subBatchSize) eqn:Hbig; cbn [app];
        rewrite ?calls_cons_log, calls_cons_call, calls_of_warnings;
        (constructor; [|constructor]); eexists _, _;
        (split; [reflexivity|]).
      * apply Z.gtb_lt in Hbig. rewrite length_take.
        unfold len, subBatchSize in *. lia.
      * rewrite Z.gtb_ltb in Hbig. apply Z.ltb_ge in Hbig.
        unfold len, subBatchSize in *. cbn [length] in *. lia.
  - destruct (nonempty (DeviceID req)) eqn:Hdev.
    + destruct (ChannelsForUser (ReqUid req)) as [|c cs] eqn:Hcs.
      * unfold run. rewrite processSubscription_nothing_resolved; [constructor|].
        unfold resolve. now rewrite Hch, Hdev, Hcs.
      * unfold run.
        rewrite (processSubscription_loops req (c :: cs) Hch Hdev Hcs)
          by discriminate.
        destruct (subscribeEach_calls_prefix req [DeviceID req] (c :: cs) [])
          as [n ->].
        cbn [calls omap app]. generalize (take n (c :: cs)).
        intros l. induction l as [|x l IH]; constructor; [|exact IH].
        exists [DeviceID req], x. split; [reflexivity|]. cbn. lia.
    + unfold run. rewrite processSubscription_nothing_resolved; [constructor|].
      unfold resolve. now rewrite Hch, Hdev.
Qed.

Lemma subscribeEach_same_flag req req' devices channels :
  ReqUid req = ReqUid req' ->
  Unsub req = Unsub req' ->
  forall tr,
    subscribeEach req devices channels tr =
    subscribeEach req' devices channels tr.
Proof.
  intros Hu Hb. induction channels as [|c rest IH]; intros tr; [reflexivity|].
  cbn [subscribeEach]. unfold bind at 1 3. unfold topicCall, logSubFailed.
  rewrite <- Hu, <- Hb.
  destruct ((if Unsub req then clientUnsubscribeFromTopic devices c
             else clientSubscribeToTopic devices c) tr) as [[[resp|e]|] tr1];
    [|reflexivity|reflexivity].
  unfold bind.
  destruct (handleSubErrors resp (ReqUid req) devices tr1) as [[[]|] tr2];
    [apply IH|reflexivity].
Qed.

(** The request enters [dispatch] through its user and its flag only. *)
Lemma dispatch_same_flag req req' locals :
  ReqUid req = ReqUid req' ->
  Unsub req = Unsub req' ->
  forall tr, dispatch req locals tr = dispatch req' locals tr.
Proof.
  intros Hu Hb tr. destruct locals as [[[channel devices] device] channels].
  unfold dispatch, topicCall, logSubFailed. rewrite <- Hu, <- Hb.
  destruct ((len devices =? 0) && String.eqb device ""
            || (len channels =? 0) && String.eqb channel ""); [reflexivity|].
  unfold bind at 1 4.
  destruct ((if len devices >? subBatchSize
             then logWarn [AStr "fcm: user"; AStr (UserId (ReqUid req));
                           AStr "has more than"; AInt subBatchSize;
                           AStr "devices"] ;;;
                  ret (take (Z.to_nat subBatchSize) devices)
             else ret devices) tr) as [[sent|] tr1]; [|reflexivity].
  destruct (nonempty channel && (len sent >? 0)); [reflexivity|].
  destruct (nonempty device && (len channels >? 0)); [|reflexivity].
  now apply subscribeEach_same_flag.
Qed.

(** X8. A fixed channel wins over a fixed device: when the request names a
    channel, its device identifier is never looked at. *)
Theorem processSubscription_channel_first req :
  nonempty (Channel req) = true ->
  forall tr,
    processSubscription req tr =
    processSubscription
      {| ReqUid := ReqUid req; DeviceID := ""; Channel := Channel req;
         Unsub := Unsub req |} tr.
Proof.
  intros Hch tr. unfold processSubscription, resolve.
  cbn [Channel ReqUid DeviceID]. rewrite Hch.
  now apply dispatch_same_flag.
Qed.

(** ** More on the two shapes *)

(** X9. In a fixed-device request a call that goes through with a response
    that reports failures and is not aligned with the one-element device
    list ends the task in a panic: that call is the last one and the
    channels after it are never tried. *)
Theorem processSubscription_misaligned_panics req channels K c resp :
  nonempty (Channel req) = false ->
  nonempty (DeviceID req) = true ->
  ChannelsForUser (ReqUid req) = channels ->
  channels !! K = Some c ->
  (forall k c', (k < K)%nat -> channels !! k = Some c' ->
     exists r,
       topicReply req k [DeviceID req] c' = TopicOk r /\
       aligned [DeviceID req] r) ->
  topicReply req K [DeviceID req] c = TopicOk resp ->
  0 < FailureCount resp ->
  ~ aligned [DeviceID req] resp ->
  outcome (processSubscription req) = Panicked /\
  calls (run (processSubscription req)) =
  map (topicRequest req [DeviceID req]) (take (S K) channels).
Proof.
  intros Hch Hdev Hchs HK Hok Hr Hfail Hbad.
  assert (Hne : channels <> []) by (intros ->; discriminate).
  assert (HKlt : (K < length channels)%nat) by (eapply lookup_lt_Some; eauto).
  unfold outcome, run.
  rewrite (processSubscription_loops req channels Hch Hdev Hchs Hne).
  rewrite <- (take_drop_middle channels K c HK) at 1 2.
  destruct (subscribeEach_app_done req [DeviceID req] (take K channels)
              (c :: drop (S K) channels) []) as (mid & -> & Hmid).
  { intros j c' Hj. apply lookup_take_Some in Hj as [Hj Hlt].
    now apply Hok. }
  cbn [app].
  assert (Hlen : length (calls mid) = K)
    by (rewrite Hmid, length_map, length_take_le; lia).
  rewrite <- Hlen in Hr.
  destruct (subscribeEach_done req [DeviceID req] c (drop (S K) channels)
              mid resp Hr) as (o & ws & Hh & _ & ->).
  assert (Ho : o = Panicked).
  { destruct o as [[]|]; [exfalso|reflexivity].
    pose proof (proj1 (handleSubErrors_returns resp (ReqUid req)
                         [DeviceID req]
                         (mid ++ [Call (topicRequest req [DeviceID req] c)])))
      as Hret.
    rewrite Hh in Hret. destruct (Hret eq_refl) as [Hle|Ha]; [lia|auto]. }
  subst o. cbn [fst snd]. split; [reflexivity|].
  rewrite calls_after_call, Hmid, (take_S_r channels K c HK), map_app.
  reflexivity.
Qed.

Lemma processSubscription_single_call req devices :
  nonempty (Channel req) = true ->
  DevicesForUser (ReqUid req) = devices ->
  devices <> [] ->
  len devices <= subBatchSize ->
  forall tr,
    processSubscription req tr =
    (r <- topicCall req devices (Channel req) ;;
     match r with
     | TopicFailed err => logSubFailed req err
     | TopicOk resp => handleSubErrors resp (ReqUid req) devices
     end) tr.
Proof.
  intros Hch Hdev Hne Hmax tr. pose proof (len_pos devices Hne) as Hpos.
  unfold processSubscription, resolve. rewrite Hch, Hdev.
  unfold dispatch. rewrite (nonempty_eqb _ Hch), Hch.
  replace (len devices =? 0) with false by (symmetry; apply Z.eqb_neq; lia).
  rewrite andb_false_r. cbn [andb orb].
  replace (len devices >? subBatchSize) with false
    by (symmetry; rewrite Z.gtb_ltb; apply Z.ltb_ge; lia).
  unfold bind at 1. unfold ret.
  replace (len devices >? 0) with true by (symmetry; apply Z.gtb_lt; lia).
  reflexivity.
Qed.

(** X10. The whole trace of a fixed-channel request with at most 1000
    devices.  When the one call fails outright the failure is logged once,
    the response is not inspected and the task returns.  When it goes
    through with an aligned response the task returns after one warning per
    reported failure. *)
Theorem processSubscription_fixed_channel_trace req devices :
  nonempty (Channel req) = true ->
  DevicesForUser (ReqUid req) = devices ->
  devices <> [] ->
  len devices <= subBatchSize ->
  (forall e,
     topicReply req 0 devices (Channel req) = TopicFailed e ->
     processSubscription req [] =
     (Returned tt,
      [Call (topicRequest req devices (Channel req));
       Log Warn (subFailed req e)])) /\
  (forall resp,
     topicReply req 0 devices (Channel req) = TopicOk resp ->
     aligned devices resp ->
     processSubscription req [] =
     (Returned tt,
      Call (topicRequest req devices (Channel req))
        :: if FailureCount resp <=? 0 then []
           else map (subErrorLine (ReqUid req) devices) (Errors resp))).
Proof.
  intros Hch Hdev Hne Hmax.
  pose proof (processSubscription_single_call req devices Hch Hdev Hne Hmax [])
    as Hone.
  split.
  - intros e Hr. rewrite Hone. unfold bind. rewrite topicCall_step.
    change (length (calls [])) with 0%nat. rewrite Hr. reflexivity.
  - intros resp Hr Ha. rewrite Hone. unfold bind. rewrite topicCall_step.
    change (length (calls [])) with 0%nat. rewrite Hr.
    unfold handleSubErrors. destruct (FailureCount resp <=? 0); [reflexivity|].
    now rewrite logSubErrors_lines.
Qed.

End Adapter.

(** ** The device store has no say in what is sent *)

Lemma sendFrom_any_store {E : Type} `{FcmError E} (fcm : Client E)
    (store1 store2 : DeviceStore) config uids ms :
  forall i tr1 tr2,
    calls tr1 = calls tr2 ->
    deletes tr1 = deletes tr2 ->
    fst (sendFrom fcm store1 config uids i ms tr1) =
    fst (sendFrom fcm store2 config uids i ms tr2) /\
    calls (snd (sendFrom fcm store1 config uids i ms tr1)) =
    calls (snd (sendFrom fcm store2 config uids i ms tr2)) /\
    deletes (snd (sendFrom fcm store1 config uids i ms tr1)) =
    deletes (snd (sendFrom fcm store2 config uids i ms tr2)).
Proof.
  induction ms as [|m rest IH]; intros i tr1 tr2 Hc Hd; [now cbn|].
  assert (Hlen : length (calls tr1) = length (calls tr2)) by now rewrite Hc.
  destruct (sendReply fcm config (length (calls tr1)) m) as [e|] eqn:Hr1.
  - pose proof Hr1 as Hr2. rewrite Hlen in Hr2.
    destruct (classify e) eqn:Hcl.
    1,2,4: rewrite (sendFrom_stopped fcm store1 config uids i m rest tr1 e Hr1),
             (sendFrom_stopped fcm store2 config uids i m rest tr2 e Hr2)
        by congruence;
      cbn [fst snd]; rewrite !calls_app, !deletes_app, Hc, Hd; auto.
    destruct (uids !! i) as [u|] eqn:Hu.
    + rewrite (sendFrom_dropped fcm store1 config uids i m rest tr1 e u Hr1 Hcl Hu),
        (sendFrom_dropped fcm store2 config uids i m rest tr2 e u Hr2 Hcl Hu).
      apply IH.
      * now rewrite !tokenDropped_calls, Hc.
      * now rewrite !tokenDropped_deletes, Hd.
    + rewrite (sendFrom_no_owner fcm store1 config uids i m rest tr1 e Hr1 Hcl Hu),
        (sendFrom_no_owner fcm store2 config uids i m rest tr2 e Hr2 Hcl Hu).
      cbn [fst snd]. rewrite !calls_app, !deletes_app, Hc, Hd. auto.
  - pose proof Hr1 as Hr2. rewrite Hlen in Hr2.
    rewrite (sendFrom_accepted fcm store1 config uids i m rest tr1 Hr1),
      (sendFrom_accepted fcm store2 config uids i m rest tr2 Hr2).
    apply IH.
    + now rewrite !calls_app, Hc.
    + now rewrite !deletes_app, Hd.
Qed.

(** X11. What the device store answers to a delete changes nothing but the
    log: with any two stores a delivery ends the same way, makes the same
    provider calls and issues the same deletes. *)
Theorem sendFcm_any_store {E : Type} `{FcmError E} (Receipt : Type)
    (PrepareNotifications : Receipt -> configType -> list Message * list Uid)
    (fcm : Client E) (store1 store2 : DeviceStore) rcpt config :
  outcome (sendFcm Receipt PrepareNotifications fcm store1 rcpt config) =
  outcome (sendFcm Receipt PrepareNotifications fcm store2 rcpt config) /\
  calls (run (sendFcm Receipt PrepareNotifications fcm store1 rcpt config)) =
  calls (run (sendFcm Receipt PrepareNotifications fcm store2 rcpt config)) /\
  deletes (run (sendFcm Receipt PrepareNotifications fcm store1 rcpt config)) =
  deletes (run (sendFcm Receipt PrepareNotifications fcm store2 rcpt config)).
Proof.
  unfold outcome, run, sendFcm.
  destruct (PrepareNotifications rcpt config) as [messages uids].
  now apply sendFrom_any_store.
Qed.

(** ** Scenarios *)

Import Sample.

(** Three devices, all sends succeed: three calls, no delete. *)
Lemma sendFcm_all_accepted_scenario :
  outcome (sendFcm Receipt prepare accepting store threeDevices (config false)) =
    Returned tt /\
  run (sendFcm Receipt prepare accepting store threeDevices (config false)) =
    map Call (map (sendCall (config false))
                  (fst (prepare threeDevices (config false)))) /\
  calls (run (sendFcm Receipt prepare accepting store threeDevices (config false))) =
    map (sendCall (config false)) (fst (prepare threeDevices (config false))) /\
  length (calls (run (sendFcm Receipt prepare accepting store threeDevices
                              (config false)))) = 3%nat /\
  deletes (run (sendFcm Receipt prepare accepting store threeDevices
                        (config false))) = [].
Proof.
  apply (sendFcm_all_accepted Receipt prepare accepting store threeDevices
           (config false) (fst (prepare threeDevices (config false)))
           (snd (prepare threeDevices (config false)))).
  - reflexivity.
  - intros k m _. reflexivity.
Defined.

(** Three devices, the second token is no longer registered: three calls
    and one delete, for the second device. *)
Lemma sendFcm_invalid_token_scenario :
  outcome (sendFcm Receipt prepare (failingAt 1 Unregistered) store threeDevices
                   (config false)) = Returned tt /\
  calls (run (sendFcm Receipt prepare (failingAt 1 Unregistered) store
                      threeDevices (config false))) =
    map (sendCall (config false)) (fst (prepare threeDevices (config false))) /\
  length (calls (run (sendFcm Receipt prepare (failingAt 1 Unregistered) store
                              threeDevices (config false)))) = 3%nat /\
  deletes (run (sendFcm Receipt prepare (failingAt 1 Unregistered) store
                        threeDevices (config false))) = [(12, "tokB")].
Proof.
  apply (sendFcm_invalid_token Receipt prepare (failingAt 1 Unregistered) store
           threeDevices (config false)
           (fst (prepare threeDevices (config false)))
           (snd (prepare threeDevices (config false)))
           1%nat {| Token := "tokB"; Payload := "new message" |} 12 Unregistered).
  - reflexivity.
  - reflexivity.
  - reflexivity.
  - reflexivity.
  - reflexivity.
  - intros k m' Hk _. unfold sendReply. cbn.
    apply Nat.eqb_neq in Hk. now rewrite Hk.
Defined.

(** Three devices, the first send hits a transient error: one call, no
    delete, devices two and three skipped. *)
Lemma sendFcm_stops_scenario :
  outcome (sendFcm Receipt prepare (failingAt 0 Internal) store threeDevices
                   (config false)) = Returned tt /\
  calls (run (sendFcm Receipt prepare (failingAt 0 Internal) store threeDevices
                      (config false))) =
    map (sendCall (config false))
        (take 1 (fst (prepare threeDevices (config false)))) /\
  length (calls (run (sendFcm Receipt prepare (failingAt 0 Internal) store
                              threeDevices (config false)))) = 1%nat /\
  exists pre,
    run (sendFcm Receipt prepare (failingAt 0 Internal) store threeDevices
                 (config false)) =
      pre ++ [Call (sendCall (config false)
                      {| Token := "tokA"; Payload := "new message" |});
              Log Warn (stopWarning Internal)] /\
    calls pre =
      map (sendCall (config false))
          (take 0 (fst (prepare threeDevices (config false)))) /\
    deletes (run (sendFcm Receipt prepare (failingAt 0 Internal) store
                          threeDevices (config false))) = deletes pre.
Proof.
  apply (sendFcm_stops Receipt prepare (failingAt 0 Internal) store threeDevices
           (config false) (fst (prepare threeDevices (config false)))
           (snd (prepare threeDevices (config false)))
           0%nat {| Token := "tokA"; Payload := "new message" |} Internal).
  - reflexivity.
  - reflexivity.
  - vm_compute. lia.
  - reflexivity.
  - left. reflexivity.
Defined.

(** A dry run against a provider that turns down the second message as
    unregistered: all three messages go through [SendDryRun], the third
    one after the delete for the second, and the real run sends the same
    three through [Send]. *)
Lemma sendFcm_dry_run_scenario :
  (exists n,
     calls (run (sendFcm Receipt prepare (failingAt 1 Unregistered) store
                         threeDevices (config true))) =
     map CSendDryRun (take n (fst (prepare threeDevices (config true))))) /\
  calls (run (sendFcm Receipt prepare (failingAt 1 Unregistered) store
                      threeDevices (config true))) !! 2%nat =
    Some (CSendDryRun {| Token := "tokC"; Payload := "new message" |}) /\
  calls (run (sendFcm Receipt prepare (failingAt 1 Unregistered) store
                      threeDevices (config false))) !! 2%nat =
    Some (CSend {| Token := "tokC"; Payload := "new message" |}) /\
  outcome (sendFcm Receipt prepare (failingAt 1 Unregistered) store threeDevices
                   (config true)) =
  outcome (sendFcm Receipt prepare (failingAt 1 Unregistered) store threeDevices
                   (config false)) /\
  run (sendFcm Receipt prepare (failingAt 1 Unregistered) store threeDevices
               (config true)) =
  map viaDryRun
      (run (sendFcm Receipt prepare (failingAt 1 Unregistered) store threeDevices
                    (config false))).
Proof.
  destruct (sendFcm_dry_run Receipt prepare (failingAt 1 Unregistered) store
              threeDevices (config true)) as (Hdry & _ & Htwin).
  destruct (sendFcm_dry_run Receipt prepare (failingAt 1 Unregistered) store
              threeDevices (config false)) as (_ & Hreal & _).
  destruct (Hdry eq_refl) as [Hprefix Hsent].
  destruct (Hreal eq_refl) as [_ Hsent'].
  split; [exact Hprefix|]. split; [|split].
  - apply (Hsent 2%nat {| Token := "tokC"; Payload := "new message" |});
      [reflexivity|].
    intros k m' Hk _. destruct k as [|[|k]]; [|  |lia].
    + left. reflexivity.
    + right. exists Unregistered.
      split; [reflexivity|]. split; [reflexivity|]. now exists 12.
  - apply (Hsent' 2%nat {| Token := "tokC"; Payload := "new message" |});
      [reflexivity|].
    intros k m' Hk _. destruct k as [|[|k]]; [|  |lia].
    + left. reflexivity.
    + right. exists Unregistered.
      split; [reflexivity|]. split; [reflexivity|]. now exists 12.
  - apply (Htwin (config false)).
    + reflexivity.
    + reflexivity.
    + reflexivity.
    + intros k m. reflexivity.
Defined.

(** A response that reports the one device of a fixed-device call. *)
Lemma handleSubErrors_index_safety_scenario :
  (fst (handleSubErrors
          {| SuccessCount := 0; FailureCount := 1;
             Errors := [{| Index := 0; Reason := "NOT_FOUND" |}] |}
          1 ["d1"] []) = Returned tt <->
   aligned ["d1"]
           {| SuccessCount := 0; FailureCount := 1;
              Errors := [{| Index := 0; Reason := "NOT_FOUND" |}] |}) /\
  (fst (handleSubErrors
          {| SuccessCount := 0; FailureCount := 1;
             Errors := [{| Index := 0; Reason := "NOT_FOUND" |}] |}
          1 ["d1"] []) = Panicked <->
   Exists (fun errinfo => ~ (0 <= Index errinfo < len ["d1"]))
          [{| Index := 0; Reason := "NOT_FOUND" |}]) /\
  (forall device,
     ["d1"] = [device] ->
     (fst (handleSubErrors
             {| SuccessCount := 0; FailureCount := 1;
                Errors := [{| Index := 0; Reason := "NOT_FOUND" |}] |}
             1 ["d1"] []) = Returned tt <->
      Forall (fun errinfo => Index errinfo = 0)
             [{| Index := 0; Reason := "NOT_FOUND" |}])).
Proof.
  apply (handleSubErrors_index_safety
           {| SuccessCount := 0; FailureCount := 1;
              Errors := [{| Index := 0; Reason := "NOT_FOUND" |}] |}
           1 ["d1"] []).
  cbn. lia.
Defined.

(** An index past the one device of the list: the inspection panics. *)
Example handleSubErrors_out_of_range :
  handleSubErrors
    {| SuccessCount := 0; FailureCount := 1;
       Errors := [{| Index := 1; Reason := "NOT_FOUND" |}] |}
    1 ["d1"] [] = (Panicked, []).
Proof. reflexivity. Qed.

(** Channel "topicA", a user with three devices: one subscribe call with
    the three tokens. *)
Lemma processSubscription_one_bulk_call_scenario :
  calls (run (processSubscription devicesOf channelsOf userId accepting
                {| ReqUid := 1; DeviceID := ""; Channel := "topicA";
                   Unsub := false |})) =
  [CSubscribeToTopic ["d1"; "d2"; "d3"] "topicA"].
Proof.
  apply (processSubscription_one_bulk_call devicesOf channelsOf userId accepting
           {| ReqUid := 1; DeviceID := ""; Channel := "topicA"; Unsub := false |}
           ["d1"; "d2"; "d3"]).
  - reflexivity.
  - reflexivity.
  - discriminate.
  - vm_compute. discriminate.
Defined.

(** A user with 1001 devices: a warning, then one call with 1000 tokens. *)
Lemma processSubscription_truncates_scenario :
  calls (run (processSubscription devicesOf channelsOf userId accepting
                {| ReqUid := 2; DeviceID := ""; Channel := "topicA";
                   Unsub := false |})) =
    [topicRequest {| ReqUid := 2; DeviceID := ""; Channel := "topicA";
                     Unsub := false |}
                  (take 1000 (repeat "d" 1001)) "topicA"] /\
  length (take 1000 (repeat "d" 1001)) = 1000%nat /\
  In (Warn, tooManyDevices userId
              {| ReqUid := 2; DeviceID := ""; Channel := "topicA";
                 Unsub := false |})
     (logged (run (processSubscription devicesOf channelsOf userId accepting
                     {| ReqUid := 2; DeviceID := ""; Channel := "topicA";
                        Unsub := false |}))) /\
  exists rest,
    run (processSubscription devicesOf channelsOf userId accepting
           {| ReqUid := 2; DeviceID := ""; Channel := "topicA";
              Unsub := false |}) =
    Log Warn (tooManyDevices userId
                {| ReqUid := 2; DeviceID := ""; Channel := "topicA";
                   Unsub := false |})
      :: Call (topicRequest {| ReqUid := 2; DeviceID := ""; Channel := "topicA";
                               Unsub := false |}
                            (take 1000 (repeat "d" 1001)) "topicA")
      :: rest.
Proof.
  apply (processSubscription_truncates devicesOf channelsOf userId accepting
           {| ReqUid := 2; DeviceID := ""; Channel := "topicA"; Unsub := false |}
           (repeat "d" 1001)).
  - reflexivity.
  - reflexivity.
  - vm_compute. reflexivity.
Defined.

(** Device "d1", channels [c1, c2, c3]: with a provider that accepts
    everything three unsubscribe calls are made; when the call for c2 fails
    outright there are two calls and c3 is never tried. *)
Lemma processSubscription_fixed_device_scenario :
  calls (run (processSubscription devicesOf channelsOf userId accepting
                {| ReqUid := 1; DeviceID := "d1"; Channel := "";
                   Unsub := true |})) =
    [CUnsubscribeFromTopic ["d1"] "c1"; CUnsubscribeFromTopic ["d1"] "c2";
     CUnsubscribeFromTopic ["d1"] "c3"] /\
  calls (run (processSubscription devicesOf channelsOf userId (failingAt 1 Other)
                {| ReqUid := 1; DeviceID := "d1"; Channel := "";
                   Unsub := true |})) =
    [CUnsubscribeFromTopic ["d1"] "c1"; CUnsubscribeFromTopic ["d1"] "c2"] /\
  length (calls (run (processSubscription devicesOf channelsOf userId
                        (failingAt 1 Other)
                        {| ReqUid := 1; DeviceID := "d1"; Channel := "";
                           Unsub := true |}))) = 2%nat.
Proof.
  split.
  - destruct (processSubscription_fixed_device devicesOf channelsOf userId
                accepting
                {| ReqUid := 1; DeviceID := "d1"; Channel := ""; Unsub := true |}
                ["c1"; "c2"; "c3"]) as (_ & Hall & _).
    + reflexivity.
    + reflexivity.
    + reflexivity.
    + discriminate.
    + apply Hall. intros k c _. exists (allDone ["d1"]).
      split; [reflexivity|constructor].
  - destruct (processSubscription_fixed_device devicesOf channelsOf userId
                (failingAt 1 Other)
                {| ReqUid := 1; DeviceID := "d1"; Channel := ""; Unsub := true |}
                ["c1"; "c2"; "c3"]) as (_ & _ & Hbreak).
    + reflexivity.
    + reflexivity.
    + reflexivity.
    + discriminate.
    + apply (Hbreak 1%nat "c2" Other).
      * reflexivity.
      * vm_compute. lia.
      * reflexivity.
Defined.

(** Channel "topicA", a user without devices: nothing happens. *)
Lemma processSubscription_unresolved_scenario :
  outcome (processSubscription devicesOf channelsOf userId accepting
             {| ReqUid := 3; DeviceID := ""; Channel := "topicA";
                Unsub := false |}) = Returned tt /\
  calls (run (processSubscription devicesOf channelsOf userId accepting
                {| ReqUid := 3; DeviceID := ""; Channel := "topicA";
                   Unsub := false |})) = [] /\
  (nonempty "topicA" = true \/ nonempty "" = true ->
   run (processSubscription devicesOf channelsOf userId accepting
          {| ReqUid := 3; DeviceID := ""; Channel := "topicA";
             Unsub := false |}) = []).
Proof.
  apply (processSubscription_unresolved devicesOf channelsOf userId accepting
           {| ReqUid := 3; DeviceID := ""; Channel := "topicA"; Unsub := false |}
           "topicA" [] "" []).
  - reflexivity.
  - right. split; reflexivity.
Defined.

(** The same request resolves to an empty list on both sides, and no error
    is logged for it: the task leaves an empty trace.  Nor is one logged for
    a request that fixes neither a channel nor a device. *)
Lemma processSubscription_unresolved_logs_no_error :
  (resolve devicesOf channelsOf
     {| ReqUid := 3; DeviceID := ""; Channel := "topicA"; Unsub := false |} =
   ("topicA", [], "", []) /\
   ~ (calls (run (processSubscription devicesOf channelsOf userId accepting
                    {| ReqUid := 3; DeviceID := ""; Channel := "topicA";
                       Unsub := false |})) = [] /\
      exists args,
        In (Log Err args)
           (run (processSubscription devicesOf channelsOf userId accepting
                   {| ReqUid := 3; DeviceID := ""; Channel := "topicA";
                      Unsub := false |})))) /\
  (resolve devicesOf channelsOf
     {| ReqUid := 1; DeviceID := ""; Channel := ""; Unsub := false |} =
   ("", [], "", []) /\
   ~ (calls (run (processSubscription devicesOf channelsOf userId accepting
                    {| ReqUid := 1; DeviceID := ""; Channel := "";
                       Unsub := false |})) = [] /\
      exists args,
        In (Log Err args)
           (run (processSubscription devicesOf channelsOf userId accepting
                   {| ReqUid := 1; DeviceID := ""; Channel := "";
                      Unsub := false |})))).
Proof.
  split; (split; [reflexivity|]); intros [_ [args Hin]]; exact Hin.
Qed.

(** ** The handler *)

(** C10. [Stop] puts one value on the shutdown channel and changes no other
    field of the handler.  When the slot of that channel is free, as it is
    after [Init], [Stop] returns; the ingress queues are the ones from
    before, so [IsReady] answers as before: still [true] for a handler that
    was ready. *)
Theorem Stop_only_signals {Receipt : Type} (h : Handler Receipt) (c : Chan bool) :
  stop h = Some c ->
  (length (queue c) < capacity c)%nat ->
  exists h',
    Stop h = Some h' /\
    stop h' = Some {| capacity := capacity c; queue := queue c ++ [true] |} /\
    input h' = input h /\
    channel h' = channel h /\
    ctx h' = ctx h /\
    client h' = client h /\
    IsReady h' = IsReady h /\
    (IsReady h = true -> IsReady h' = true).
Proof.
  intros Hstop Hroom. unfold Stop, chanSend. rewrite Hstop.
  apply Nat.ltb_lt in Hroom. rewrite Hroom.
  eexists. split; [reflexivity|]. cbn. repeat split. auto.
Qed.

(** Whenever [Stop] returns, the handler differs in the shutdown channel
    only. *)
Lemma Stop_frame {Receipt : Type} (h h' : Handler Receipt) :
  Stop h = Some h' ->
  input h' = input h /\ channel h' = channel h /\
  ctx h' = ctx h /\ client h' = client h /\ IsReady h' = IsReady h.
Proof.
  unfold Stop. destruct (chanSend (stop h) true); [|discriminate].
  intros [= <-]. repeat split.
Qed.

(** Before [Init] the handler is not ready and [Stop] has no channel to
    send on; after [Init] it is ready. *)
Example zeroHandler_not_ready :
  IsReady (@zeroHandler Sample.Receipt) = false /\
  Stop (@zeroHandler Sample.Receipt) = None.
Proof. split; reflexivity. Qed.

Example initialised_ready :
  IsReady (@initialised Sample.Receipt {| clientApp := "chat" |}) = true.
Proof. reflexivity. Qed.

(** A second [Stop] with nobody receiving finds the slot taken. *)
Example Stop_twice_blocks :
  match Stop (@initialised Sample.Receipt {| clientApp := "chat" |}) with
  | Some h => Stop h
  | None => None
  end = None.
Proof. reflexivity. Qed.

(** [Stop] on a handler fresh from [Init]. *)
Lemma Stop_only_signals_scenario :
  exists h' : Handler Sample.Receipt,
    Stop (initialised {| clientApp := "chat" |}) = Some h' /\
    stop h' = Some {| capacity := 1; queue := [true] |} /\
    input h' = Some (make bufferSize) /\
    channel h' = Some (make bufferSize) /\
    ctx h' = Some Background /\
    client h' = Some {| clientApp := "chat" |} /\
    IsReady h' = true /\
    (true = true -> IsReady h' = true).
Proof.
  apply (Stop_only_signals (initialised {| clientApp := "chat" |})
           {| capacity := 1; queue := [] |}).
  - reflexivity.
  - cbn. lia.
Defined.

(** ** Start-up *)

(** X12. [Init] reports success exactly when the configuration parses and
    is enabled, credentials are there, inline or read from the credentials
    file, and the three steps of the provider set-up all succeed. *)
Theorem Init_success_iff {Receipt Creds App : Type} (world : Platform Creds App)
    (h : Handler Receipt) (jsonconf : string) :
  initOk (Init world h jsonconf) = true <->
  exists parsed data creds app,
    Unmarshal world jsonconf = inl parsed /\
    Enabled parsed = true /\
    (Credentials parsed = Some data \/
     Credentials parsed = None /\
     nonempty (CredentialsFile parsed) = true /\
     ReadFile world (CredentialsFile parsed) = inl (Some data)) /\
    CredentialsFromJSON world data = inl creds /\
    NewApp world creds = inl app /\
    snd (Messaging world app) = None.
Proof.
  unfold Init. split.
  - destruct (Unmarshal world jsonconf) as [parsed|err]; [|discriminate].
    destruct (Enabled parsed) eqn:Hen; [cbn [negb]|discriminate].
    destruct (Credentials parsed) as [data|] eqn:Hcred.
    + rewrite Hcred.
      destruct (CredentialsFromJSON world data) as [creds|] eqn:Hc;
        [|discriminate].
      destruct (NewApp world creds) as [app|] eqn:Ha; [|discriminate].
      destruct (snd (Messaging world app)) eqn:Hm; [discriminate|].
      intros _. exists parsed, data, creds, app. auto 10.
    + destruct (nonempty (CredentialsFile parsed)) eqn:Hfile.
      * destruct (ReadFile world (CredentialsFile parsed)) as [[data|]|]
          eqn:Hread; cbn [setCredentials Credentials]; try discriminate.
        destruct (CredentialsFromJSON world data) as [creds|] eqn:Hc;
          [|discriminate].
        destruct (NewApp world creds) as [app|] eqn:Ha; [|discriminate].
        destruct (snd (Messaging world app)) eqn:Hm; [discriminate|].
        intros _. exists parsed, data, creds, app. auto 10.
      * rewrite Hcred. discriminate.
  - intros (parsed & data & creds & app & -> & -> & Hcred & Hc & Ha & Hm).
    cbn [negb].
    destruct Hcred as [Hcred|(Hcred & Hfile & Hread)]; rewrite Hcred.
    + now rewrite Hcred, Hc, Ha, Hm.
    + rewrite Hfile, Hread. cbn [setCredentials Credentials].
      now rewrite Hc, Ha, Hm.
Qed.

(** X13. A successful [Init] returns no error and leaves the handler ready,
    with both ingress queues empty at capacity 1024 and an empty shutdown
    slot of capacity 1; the control loop it starts holds the parsed
    configuration, enabled and with its credentials filled in. *)
Theorem Init_ready {Receipt Creds App : Type} (world : Platform Creds App)
    (h : Handler Receipt) (jsonconf : string) :
  initOk (Init world h jsonconf) = true ->
  initErr (Init world h jsonconf) = None /\
  IsReady (initHandler (Init world h jsonconf)) = true /\
  Push (initHandler (Init world h jsonconf)) =
    Some {| capacity := 1024; queue := [] |} /\
  ChannelQueue (initHandler (Init world h jsonconf)) =
    Some {| capacity := 1024; queue := [] |} /\
  stop (initHandler (Init world h jsonconf)) =
    Some {| capacity := 1; queue := [] |} /\
  ctx (initHandler (Init world h jsonconf)) = Some Background /\
  exists parsed data,
    Unmarshal world jsonconf = inl parsed /\
    Enabled parsed = true /\
    initLoop (Init world h jsonconf) = Some (setCredentials parsed (Some data)).
Proof.
  unfold Init.
  destruct (Unmarshal world jsonconf) as [parsed|err]; [|discriminate].
  destruct (Enabled parsed) eqn:Hen; [cbn [negb]|discriminate].
  destruct (Credentials parsed) as [data|] eqn:Hcred.
  - rewrite Hcred.
    destruct (CredentialsFromJSON world data) as [creds|]; [|discriminate].
    destruct (NewApp world creds) as [app|]; [|discriminate].
    destruct (snd (Messaging world app)); [discriminate|].
    intros _. repeat split. exists parsed, data. repeat split; [exact Hen|].
    destruct parsed. cbn in *. now subst.
  - destruct (nonempty (CredentialsFile parsed)).
    + destruct (ReadFile world (CredentialsFile parsed)) as [[data|]|];
        cbn [setCredentials Credentials]; try discriminate.
      destruct (CredentialsFromJSON world data) as [creds|]; [|discriminate].
      destruct (NewApp world creds) as [app|]; [|discriminate].
      destruct (snd (Messaging world app)); [discriminate|].
      intros _. repeat split. exists parsed, data. repeat split. exact Hen.
    + rewrite Hcred. discriminate.
Qed.

(** X14. An [Init] that reports failure starts no control loop and leaves
    the three channels of the handler as they were, so a handler that was
    not ready stays not ready. *)
Theorem Init_failure_keeps_channels {Receipt Creds App : Type}
    (world : Platform Creds App) (h : Handler Receipt) (jsonconf : string) :
  initOk (Init world h jsonconf) = false ->
  initLoop (Init world h jsonconf) = None /\
  input (initHandler (Init world h jsonconf)) = input h /\
  channel (initHandler (Init world h jsonconf)) = channel h /\
  stop (initHandler (Init world h jsonconf)) = stop h /\
  IsReady (initHandler (Init world h jsonconf)) = IsReady h.
Proof.
  unfold Init, IsReady.
  destruct (Unmarshal world jsonconf) as [parsed|err]; [|now cbn].
  destruct (negb (Enabled parsed)); [now cbn|].
  destruct (Credentials parsed) as [data|] eqn:Hcred.
  - rewrite Hcred.
    destruct (CredentialsFromJSON world data) as [creds|]; [|now cbn].
    destruct (NewApp world creds) as [app|]; [|now cbn].
    destruct (snd (Messaging world app)); [now cbn|discriminate].
  - destruct (nonempty (CredentialsFile parsed)).
    + destruct (ReadFile world (CredentialsFile parsed)) as [[data|]|];
        cbn [setCredentials Credentials]; try (now cbn).
      destruct (CredentialsFromJSON world data) as [creds|]; [|now cbn].
      destruct (NewApp world creds) as [app|]; [|now cbn].
      destruct (snd (Messaging world app)); [now cbn|discriminate].
    + rewrite Hcred. now cbn.
Qed.

(** X15. [Init] returns [(false, nil)] exactly for a configuration that
    parses and is not enabled: every other failure comes with an error. *)
Theorem Init_silent_iff_disabled {Receipt Creds App : Type}
    (world : Platform Creds App) (h : Handler Receipt) (jsonconf : string) :
  (initOk (Init world h jsonconf) = false /\
   initErr (Init world h jsonconf) = None) <->
  exists parsed,
    Unmarshal world jsonconf = inl parsed /\ Enabled parsed = false.
Proof.
  unfold Init. split.
  - destruct (Unmarshal world jsonconf) as [parsed|err];
      [|intros [_ Herr]; discriminate].
    destruct (Enabled parsed) eqn:Hen; [cbn [negb]|intros _; now exists parsed].
    destruct (Credentials parsed) as [data|] eqn:Hcred.
    + rewrite Hcred.
      destruct (CredentialsFromJSON world data) as [creds|];
        [|intros [_ Herr]; discriminate].
      destruct (NewApp world creds) as [app|];
        [|intros [_ Herr]; discriminate].
      destruct (snd (Messaging world app)); intros [Hok Herr]; discriminate.
    + destruct (nonempty (CredentialsFile parsed)).
      * destruct (ReadFile world (CredentialsFile parsed)) as [[data|]|];
          cbn [setCredentials Credentials];
          try (intros [_ Herr]; discriminate).
        destruct (CredentialsFromJSON world data) as [creds|];
          [|intros [_ Herr]; discriminate].
        destruct (NewApp world creds) as [app|];
          [|intros [_ Herr]; discriminate].
        destruct (snd (Messaging world app)); intros [Hok Herr]; discriminate.
      * rewrite Hcred. intros [_ Herr]. discriminate.
  - intros (parsed & -> & ->). now cbn.
Qed.

(** X16. Inline credentials win over the credentials file: when the
    configuration carries credentials, [Init] does not depend on the file
    system. *)
Theorem Init_inline_credentials {Receipt Creds App : Type}
    (world : Platform Creds App) (h : Handler Receipt) (jsonconf : string)
    (parsed : configType) (data : string)
    (read : string -> option string + string) :
  Unmarshal world jsonconf = inl parsed ->
  Credentials parsed = Some data ->
  Init (withReadFile world read) h jsonconf = Init world h jsonconf.
Proof.
  intros Hparse Hcred. unfold Init, withReadFile.
  cbn [Unmarshal ReadFile CredentialsFromJSON NewApp Messaging].
  rewrite Hparse, Hcred. reflexivity.
Qed.

(** ** The control loop *)

Lemma loopStep_conserves {Receipt : Type} config pick (d d' : Dispatcher Receipt) :
  loopStep config pick d = Some d' ->
  omap sendJob (spawned d') ++ pending (input (handlerOf d')) =
    omap sendJob (spawned d) ++ pending (input (handlerOf d)) /\
  omap subJob (spawned d') ++ pending (channel (handlerOf d')) =
    omap subJob (spawned d) ++ pending (channel (handlerOf d)) /\
  exists more,
    spawned d' = spawned d ++ more /\
    Forall (fun j => forall rcpt c, j = SendJob rcpt c -> c = config) more.
Proof.
  unfold loopStep. destruct (exited d); [discriminate|].
  destruct pick.
  - destruct (input (handlerOf d)) as [[cap [|r rest]]|] eqn:Hin;
      cbn [chanRecv queue]; try discriminate.
    intros [= <-]. cbn [spawned handlerOf input channel pending queue].
    rewrite !omap_app. cbn.
    split; [now rewrite <- ?app_assoc, ?app_nil_r|].
    split; [now rewrite <- ?app_assoc, ?app_nil_r|].
    exists [SendJob r config]. split; [reflexivity|].
    constructor; [|constructor]. now intros rcpt c [= _ <-].
  - destruct (channel (handlerOf d)) as [[cap [|r rest]]|] eqn:Hin;
      cbn [chanRecv queue]; try discriminate.
    intros [= <-]. cbn [spawned handlerOf input channel pending queue].
    rewrite !omap_app. cbn.
    split; [now rewrite <- ?app_assoc, ?app_nil_r|].
    split; [now rewrite <- ?app_assoc, ?app_nil_r|].
    exists [SubJob r]. split; [reflexivity|].
    constructor; [|constructor]. intros rcpt c. discriminate.
  - destruct (chanRecv (stop (handlerOf d))) as [[b ch]|]; [|discriminate].
    intros [= <-]. cbn [spawned handlerOf input channel].
    repeat split. exists []. now rewrite app_nil_r.
Qed.

(** X17. However [select] picks, the loop hands every delivery and every
    subscription request it takes out of a queue to exactly one new task,
    in queue order: the tasks started so far followed by what still waits
    in the queue never change.  Tasks are only added, and every delivery
    task gets the configuration of the loop. *)
Theorem loopRun_conserves {Receipt : Type} config picks :
  forall d d' : Dispatcher Receipt,
    loopRun config picks d = Some d' ->
    omap sendJob (spawned d') ++ pending (input (handlerOf d')) =
      omap sendJob (spawned d) ++ pending (input (handlerOf d)) /\
    omap subJob (spawned d') ++ pending (channel (handlerOf d')) =
      omap subJob (spawned d) ++ pending (channel (handlerOf d)) /\
    exists more,
      spawned d' = spawned d ++ more /\
      Forall (fun j => forall rcpt c, j = SendJob rcpt c -> c = config) more.
Proof.
  induction picks as [|pick rest IH]; intros d d' Hrun.
  - injection Hrun as <-. repeat split. exists []. now rewrite app_nil_r.
  - cbn [loopRun] in Hrun.
    destruct (loopStep config pick d) as [d1|] eqn:Hstep; [|discriminate].
    destruct (loopStep_conserves config pick d d1 Hstep)
      as (Hs1 & Hc1 & more1 & Hm1 & Hall1).
    destruct (IH d1 d' Hrun) as (Hs2 & Hc2 & more2 & Hm2 & Hall2).
    split; [congruence|]. split; [congruence|].
    exists (more1 ++ more2). split.
    + now rewrite Hm2, Hm1, <- app_assoc.
    + apply Forall_app. now split.
Qed.

(** X18. A loop that has not returned can work off everything that waits
    in the delivery queue: taking the delivery case once per waiting
    receipt starts one task per receipt, in queue order, empties the queue
    and leaves the subscription queue alone. *)
Theorem loopRun_drains {Receipt : Type} config (rs : list Receipt) :
  forall d : Dispatcher Receipt,
    pending (input (handlerOf d)) = rs ->
    exited d = false ->
    exists d',
      loopRun config (repeat FromInput (length rs)) d = Some d' /\
      spawned d' = spawned d ++ map (fun r => SendJob r config) rs /\
      pending (input (handlerOf d')) = [] /\
      channel (handlerOf d') = channel (handlerOf d) /\
      exited d' = false.
Proof.
  induction rs as [|r rest IH]; intros d Hq Hex.
  - exists d. cbn. now rewrite app_nil_r.
  - cbn [length repeat loopRun]. unfold loopStep. rewrite Hex.
    destruct (input (handlerOf d)) as [[cap q]|] eqn:Hin; [|discriminate].
    cbn [pending queue] in Hq. subst q. cbn [chanRecv queue].
    edestruct IH as (d' & Hrun & Hsp & Hpend & Hch & Hexd); [| |].
    3:{ exists d'. split; [exact Hrun|]. split; [|split; [exact Hpend|]].
        - rewrite Hsp. cbn [spawned map]. now rewrite <- app_assoc.
        - split; [exact Hch|exact Hexd]. }
    + reflexivity.
    + reflexivity.
Qed.

Lemma loopRun_app {Receipt : Type} config picks1 picks2 (d : Dispatcher Receipt) :
  loopRun config (picks1 ++ picks2) d =
  match loopRun config picks1 d with
  | Some d1 => loopRun config picks2 d1
  | None => None
  end.
Proof.
  revert d. induction picks1 as [|p rest IH]; intros d; [reflexivity|].
  cbn [app loopRun]. destruct (loopStep config p d); [apply IH|reflexivity].
Qed.

Lemma loopRun_deliveries_kept {Receipt : Type} config picks :
  forall d d' : Dispatcher Receipt,
    loopRun config picks d = Some d' ->
    omap sendJob (spawned d') ++ pending (input (handlerOf d')) =
    omap sendJob (spawned d) ++ pending (input (handlerOf d)).
Proof.
  induction picks as [|pick rest IH]; intros d d' Hrun.
  - now injection Hrun as <-.
  - cbn [loopRun] in Hrun.
    destruct (loopStep config pick d) as [d1|] eqn:Hstep; [|discriminate].
    rewrite (IH d1 d' Hrun).
    now destruct (loopStep_conserves config pick d d1 Hstep) as [-> _].
Qed.

(** X19. The shutdown case ends the loop: in any run the shutdown case can
    only be the last pick, and whatever still waits in the queues at that
    point is never handed to a task. *)
Theorem loopRun_stop_last {Receipt : Type} config pre post
    (d d' : Dispatcher Receipt) :
  loopRun config (pre ++ FromStop :: post) d = Some d' ->
  post = [] /\
  exited d' = true /\
  omap sendJob (spawned d') ++ pending (input (handlerOf d')) =
    omap sendJob (spawned d) ++ pending (input (handlerOf d)) /\
  forall pick, loopStep config pick d' = None.
Proof.
  intros Hrun. pose proof (loopRun_deliveries_kept config _ d d' Hrun) as Hs.
  rewrite loopRun_app in Hrun.
  destruct (loopRun config pre d) as [d1|]; [|discriminate].
  cbn [loopRun] in Hrun.
  destruct (loopStep config FromStop d1) as [d2|] eqn:Hstep; [|discriminate].
  assert (Hex : exited d2 = true).
  { unfold loopStep in Hstep. destruct (exited d1); [discriminate|].
    destruct (chanRecv (stop (handlerOf d1))) as [[b ch]|]; [|discriminate].
    now injection Hstep as <-. }
  destruct post as [|p post].
  - injection Hrun as <-. repeat split; [exact Hex|exact Hs|].
    intros pick. unfold loopStep. now rewrite Hex.
  - cbn [loopRun] in Hrun. unfold loopStep in Hrun. rewrite Hex in Hrun.
    discriminate.
Qed.

(** X20. [Stop] and the loop together: with the shutdown slot empty,
    [Stop] returns, the loop can take the shutdown case, and once it has,
    it has returned with the slot empty again, no task started and both
    ingress queues as they were. *)
Theorem Stop_ends_loop {Receipt : Type} config (h : Handler Receipt)
    (c : Chan bool) (jobs : list (Job Receipt)) :
  stop h = Some c ->
  queue c = [] ->
  (0 < capacity c)%nat ->
  exists h1 d',
    Stop h = Some h1 /\
    loopStep config FromStop
      {| handlerOf := h1; spawned := jobs; exited := false |} = Some d' /\
    exited d' = true /\
    spawned d' = jobs /\
    input (handlerOf d') = input h /\
    channel (handlerOf d') = channel h /\
    pending (stop (handlerOf d')) = [] /\
    forall pick, loopStep config pick d' = None.
Proof.
  intros Hstop Hq Hcap. unfold Stop, chanSend. rewrite Hstop, Hq.
  cbn [length]. apply Nat.ltb_lt in Hcap. rewrite Hcap.
  eexists _, _. split; [reflexivity|]. split; [reflexivity|].
  repeat split.
Qed.

(** ** More scenarios *)

(** Three devices with their owners, the second token unregistered: the
    task returns. *)
Lemma sendFcm_never_panics_scenario :
  outcome (sendFcm Receipt prepare (failingAt 1 Unregistered) store threeDevices
                   (config false)) = Returned tt.
Proof.
  apply (sendFcm_never_panics Receipt prepare (failingAt 1 Unregistered) store
           threeDevices (config false)
           (fst (prepare threeDevices (config false)))
           (snd (prepare threeDevices (config false)))).
  - reflexivity.
  - cbn. lia.
Defined.

(** The same delivery without the owner list: the task panics after the
    second call and deletes nothing. *)
Lemma sendFcm_missing_owner_scenario :
  outcome (sendFcm Receipt Fixture.prepareNoOwners (failingAt 1 Unregistered)
                   store threeDevices (config false)) = Panicked /\
  calls (run (sendFcm Receipt Fixture.prepareNoOwners (failingAt 1 Unregistered)
                      store threeDevices (config false))) =
    map (sendCall (config false))
        (take 2 (fst (prepare threeDevices (config false)))) /\
  deletes (run (sendFcm Receipt Fixture.prepareNoOwners
                        (failingAt 1 Unregistered) store threeDevices
                        (config false))) = [].
Proof.
  apply (sendFcm_missing_owner Receipt Fixture.prepareNoOwners
           (failingAt 1 Unregistered) store threeDevices (config false)
           (fst (prepare threeDevices (config false))) []
           1%nat {| Token := "tokB"; Payload := "new message" |} Unregistered).
  - reflexivity.
  - reflexivity.
  - reflexivity.
  - intros k m' Hk _. destruct k; [reflexivity|lia].
  - reflexivity.
  - reflexivity.
Defined.

(** The one delete of the invalid-token scenario goes back to the second
    message. *)
Lemma sendFcm_deletes_only_unregistered_scenario :
  exists i m e,
    fst (prepare threeDevices (config false)) !! i = Some m /\
    snd (prepare threeDevices (config false)) !! i = Some 12 /\
    "tokB" = Token m /\
    sendReply (failingAt 1 Unregistered) (config false) i m = Some e /\
    classify e = InvalidToken.
Proof.
  apply (sendFcm_deletes_only_unregistered Receipt prepare
           (failingAt 1 Unregistered) store threeDevices (config false)
           (fst (prepare threeDevices (config false)))
           (snd (prepare threeDevices (config false))) 12 "tokB").
  - reflexivity.
  - vm_compute. left. reflexivity.
Defined.

(** A response that reports the second of two devices. *)
Lemma handleSubErrors_reports_scenario :
  handleSubErrors
    {| SuccessCount := 1; FailureCount := 1;
       Errors := [{| Index := 1; Reason := "NOT_FOUND" |}] |}
    7 ["d1"; "d2"] [] =
  (Returned tt,
   [] ++ [Log Warn [AStr "fcm sub/unsub error"; AStr "NOT_FOUND"; AUid 7;
                    AStr "d2"]]).
Proof.
  apply (handleSubErrors_reports
           {| SuccessCount := 1; FailureCount := 1;
              Errors := [{| Index := 1; Reason := "NOT_FOUND" |}] |}
           7 ["d1"; "d2"] []).
  constructor; [unfold len; cbn [Index length]; lia|constructor].
Defined.

(** A request that names a channel and a device is handled as if it named
    the channel alone. *)
Lemma processSubscription_channel_first_scenario :
  processSubscription devicesOf channelsOf userId accepting
    {| ReqUid := 1; DeviceID := "d9"; Channel := "topicA"; Unsub := false |}
    [] =
  processSubscription devicesOf channelsOf userId accepting
    {| ReqUid := 1; DeviceID := ""; Channel := "topicA"; Unsub := false |}
    [].
Proof.
  apply (processSubscription_channel_first devicesOf channelsOf userId accepting
           {| ReqUid := 1; DeviceID := "d9"; Channel := "topicA";
              Unsub := false |}).
  reflexivity.
Defined.

(** Device "d1", channels [c1, c2, c3], a provider that reports index 1:
    a panic after the first call. *)
Lemma processSubscription_misaligned_panics_scenario :
  outcome (processSubscription devicesOf channelsOf userId Fixture.misreporting
             {| ReqUid := 1; DeviceID := "d1"; Channel := ""; Unsub := false |}) =
    Panicked /\
  calls (run (processSubscription devicesOf channelsOf userId
                Fixture.misreporting
                {| ReqUid := 1; DeviceID := "d1"; Channel := "";
                   Unsub := false |})) =
    map (topicRequest {| ReqUid := 1; DeviceID := "d1"; Channel := "";
                         Unsub := false |} ["d1"])
        (take 1 ["c1"; "c2"; "c3"]).
Proof.
  apply (processSubscription_misaligned_panics devicesOf channelsOf userId
           Fixture.misreporting
           {| ReqUid := 1; DeviceID := "d1"; Channel := ""; Unsub := false |}
           ["c1"; "c2"; "c3"] 0%nat "c1"
           {| SuccessCount := 0; FailureCount := 1;
              Errors := [{| Index := 1; Reason := "NOT_FOUND" |}] |}).
  - reflexivity.
  - reflexivity.
  - reflexivity.
  - reflexivity.
  - intros k c' Hk. lia.
  - reflexivity.
  - cbn. lia.
  - intros Ha. inversion Ha as [|? ? Hhead _].
    unfold len in Hhead. cbn [Index length] in Hhead. lia.
Defined.

(** Channel "topicA", three devices: the trace when the call fails
    outright, and when it goes through and reports the first device. *)
Lemma processSubscription_fixed_channel_trace_scenario :
  processSubscription devicesOf channelsOf userId (failingAt 0 Other)
    {| ReqUid := 1; DeviceID := ""; Channel := "topicA"; Unsub := false |} [] =
  (Returned tt,
   [Call (CSubscribeToTopic ["d1"; "d2"; "d3"] "topicA");
    Log Warn [AStr "fcm: sub or upsub failed"; ABool false; AStr "fcm error"]]) /\
  processSubscription devicesOf channelsOf userId Fixture.reporting
    {| ReqUid := 1; DeviceID := ""; Channel := "topicA"; Unsub := false |} [] =
  (Returned tt,
   [Call (CSubscribeToTopic ["d1"; "d2"; "d3"] "topicA");
    Log Warn [AStr "fcm sub/unsub error"; AStr "NOT_FOUND"; AUid 1;
              AStr "d1"]]).
Proof.
  split.
  - destruct (processSubscription_fixed_channel_trace devicesOf channelsOf
                userId (failingAt 0 Other)
                {| ReqUid := 1; DeviceID := ""; Channel := "topicA";
                   Unsub := false |} ["d1"; "d2"; "d3"]) as [Hfail _].
    + reflexivity.
    + reflexivity.
    + discriminate.
    + vm_compute. discriminate.
    + apply (Hfail Other). reflexivity.
  - destruct (processSubscription_fixed_channel_trace devicesOf channelsOf
                userId Fixture.reporting
                {| ReqUid := 1; DeviceID := ""; Channel := "topicA";
                   Unsub := false |} ["d1"; "d2"; "d3"]) as [_ Hdone].
    + reflexivity.
    + reflexivity.
    + discriminate.
    + vm_compute. discriminate.
    + apply (Hdone {| SuccessCount := 2; FailureCount := 1;
                      Errors := [{| Index := 0; Reason := "NOT_FOUND" |}] |}).
      * reflexivity.
      * constructor; [unfold len; cbn [Index length]; lia|constructor].
Defined.

(** Credentials from the file: [Init] succeeds on a handler that was never
    initialised. *)
Lemma Init_ready_scenario :
  initErr (Init Fixture.world (@zeroHandler Receipt) "file") = None /\
  IsReady (initHandler (Init Fixture.world (@zeroHandler Receipt) "file")) =
    true /\
  Push (initHandler (Init Fixture.world (@zeroHandler Receipt) "file")) =
    Some {| capacity := 1024; queue := [] |} /\
  ChannelQueue (initHandler (Init Fixture.world (@zeroHandler Receipt) "file")) =
    Some {| capacity := 1024; queue := [] |} /\
  stop (initHandler (Init Fixture.world (@zeroHandler Receipt) "file")) =
    Some {| capacity := 1; queue := [] |} /\
  ctx (initHandler (Init Fixture.world (@zeroHandler Receipt) "file")) =
    Some Background /\
  exists parsed data,
    Unmarshal Fixture.world "file" = inl parsed /\
    Enabled parsed = true /\
    initLoop (Init Fixture.world (@zeroHandler Receipt) "file") =
      Some (setCredentials parsed (Some data)).
Proof.
  apply (Init_ready Fixture.world (@zeroHandler Receipt) "file").
  reflexivity.
Defined.

(** A configuration that does not parse: the handler, ready from an earlier
    [Init], keeps its channels. *)
Lemma Init_failure_keeps_channels_scenario :
  initLoop (Init Fixture.world
              (@initialised Receipt {| clientApp := "chat" |}) "{") = None /\
  input (initHandler (Init Fixture.world
                        (@initialised Receipt {| clientApp := "chat" |}) "{")) =
    input (@initialised Receipt {| clientApp := "chat" |}) /\
  channel (initHandler (Init Fixture.world
                          (@initialised Receipt {| clientApp := "chat" |}) "{")) =
    channel (@initialised Receipt {| clientApp := "chat" |}) /\
  stop (initHandler (Init Fixture.world
                       (@initialised Receipt {| clientApp := "chat" |}) "{")) =
    stop (@initialised Receipt {| clientApp := "chat" |}) /\
  IsReady (initHandler (Init Fixture.world
                          (@initialised Receipt {| clientApp := "chat" |}) "{")) =
    IsReady (@initialised Receipt {| clientApp := "chat" |}).
Proof.
  apply (Init_failure_keeps_channels Fixture.world
           (@initialised Receipt {| clientApp := "chat" |}) "{").
  reflexivity.
Defined.

(** Inline credentials: a file system that fails makes no difference. *)
Lemma Init_inline_credentials_scenario :
  Init (withReadFile Fixture.world (fun _ => inr "input/output error"))
       (@zeroHandler Receipt) "inline" =
  Init Fixture.world (@zeroHandler Receipt) "inline".
Proof.
  apply (Init_inline_credentials Fixture.world (@zeroHandler Receipt) "inline"
           (config false) "{}").
  - reflexivity.
  - reflexivity.
Defined.

(** The busy handler: subscription first, then both deliveries. *)
Lemma loopRun_conserves_scenario :
  exists d',
    loopRun (config false) [FromChannel; FromInput; FromInput]
            (startLoop Fixture.busy) = Some d' /\
    omap sendJob (spawned d') ++ pending (input (handlerOf d')) =
      omap sendJob (spawned (startLoop Fixture.busy))
        ++ pending (input (handlerOf (startLoop Fixture.busy))) /\
    omap subJob (spawned d') ++ pending (channel (handlerOf d')) =
      omap subJob (spawned (startLoop Fixture.busy))
        ++ pending (channel (handlerOf (startLoop Fixture.busy))) /\
    exists more,
      spawned d' = spawned (startLoop Fixture.busy) ++ more /\
      Forall (fun j => forall rcpt c, j = SendJob rcpt c -> c = config false)
             more.
Proof.
  eexists. split; [reflexivity|].
  apply (loopRun_conserves (config false) [FromChannel; FromInput; FromInput]
           (startLoop Fixture.busy)).
  reflexivity.
Defined.

(** The busy handler: both deliveries worked off. *)
Lemma loopRun_drains_scenario :
  exists d',
    loopRun (config false) (repeat FromInput 2) (startLoop Fixture.busy) =
      Some d' /\
    spawned d' =
      spawned (startLoop Fixture.busy)
        ++ map (fun r => SendJob r (config false))
               [[(11, "tokA")]; [(12, "tokB")]] /\
    pending (input (handlerOf d')) = [] /\
    channel (handlerOf d') = channel (handlerOf (startLoop Fixture.busy)) /\
    exited d' = false.
Proof.
  apply (loopRun_drains (config false) [[(11, "tokA")]; [(12, "tokB")]]
           (startLoop Fixture.busy)).
  - reflexivity.
  - reflexivity.
Defined.

(** The busy handler after [Stop]: one delivery is taken, then the shutdown
    case; the second delivery stays in the queue. *)
Lemma loopRun_stop_last_scenario :
  exists h1 d',
    Stop Fixture.busy = Some h1 /\
    loopRun (config false) ([FromInput] ++ FromStop :: [])
            (startLoop h1) = Some d' /\
    @nil Case = [] /\
    exited d' = true /\
    omap sendJob (spawned d') ++ pending (input (handlerOf d')) =
      omap sendJob (spawned (startLoop h1))
        ++ pending (input (handlerOf (startLoop h1))) /\
    forall pick, loopStep (config false) pick d' = None.
Proof.
  eexists _, _. split; [reflexivity|]. split; [reflexivity|].
  apply (loopRun_stop_last (config false) [FromInput] []).
  reflexivity.
Defined.

(** [Stop] on the busy handler, then the shutdown case. *)
Lemma Stop_ends_loop_scenario :
  exists h1 d',
    Stop Fixture.busy = Some h1 /\
    loopStep (config false) FromStop
      {| handlerOf := h1; spawned := []; exited := false |} = Some d' /\
    exited d' = true /\
    spawned d' = [] /\
    input (handlerOf d') = input Fixture.busy /\
    channel (handlerOf d') = channel Fixture.busy /\
    pending (stop (handlerOf d')) = [] /\
    forall pick, loopStep (config false) pick d' = None.
Proof.
  apply (Stop_ends_loop (config false) Fixture.busy
           {| capacity := 1; queue := [] |} []).
  - reflexivity.
  - reflexivity.
  - cbn. lia.
Defined.
